(** * imgwork: batch image processing, output-path resolution and discovery

    A shallow embedding of the command-line tool's JavaScript sources
    ([index.js], [src/processor.js], [src/utils/output.js],
    [src/utils/files.js], [src/commands/*.js]) and the properties of its
    batch orchestration, path mapping, discovery and crop geometry.

    Conventions.
    - JavaScript strings are [string]s of bytes; [toLowerCase] and [trim]
      act on the ASCII range, which is all the recognised extensions,
      keywords and positions are made of.
    - JavaScript numbers that hold pixel counts are [Z]; every operation
      on them that the sources perform exactly on integers below 2^53 is
      written with exact integer arithmetic.
    - A thrown [Error] is [Throw msg] where [msg] is [error.message].
    - Node's [path] module (POSIX flavour), the [fs] module and the image
      library are collaborators of the program: [Path] and [Fs] give them
      an executable model, the image library is an oracle record. *)

From Stdlib Require Import Bool List ZArith Lia Ascii String DecimalString.
Import ListNotations.

Open Scope list_scope.
Open Scope string_scope.

(* ================================================================== *)
(** ** JavaScript values, exceptions and string primitives *)
(* ================================================================== *)

Module JS.

(** The outcome of a call that may throw. *)
Inductive result (A : Type) : Type :=
| Ok (a : A)
| Throw (message : string).
Arguments Ok {A} a.
Arguments Throw {A} message.

Definition bind {A B : Type} (r : result A) (k : A -> result B) : result B :=
  match r with
  | Ok a => k a
  | Throw m => Throw m
  end.

Definition isThrow {A : Type} (r : result A) : bool :=
  match r with Ok _ => false | Throw _ => true end.

(** The values an option field of a command can hold. *)
Inductive value : Type :=
| Undefined
| Null
| Bool (b : bool)
| Num (n : Z)
| NaN
| Str (s : string)
| Obj.   (* an object or a function, opaque *)

(** [ToBoolean]. *)
Definition truthy (v : value) : bool :=
  match v with
  | Undefined | Null | NaN => false
  | Obj => true
  | Bool b => b
  | Num n => negb (Z.eqb n 0)
  | Str s => negb (String.eqb s "")
  end.

(** [a || b] on values. *)
Definition or_else (a b : value) : value := if truthy a then a else b.

Definition lowerAscii (c : ascii) : ascii :=
  let n := nat_of_ascii c in
  if (Nat.leb 65 n && Nat.leb n 90)%bool then ascii_of_nat (n + 32) else c.

Fixpoint toLowerCase (s : string) : string :=
  match s with
  | EmptyString => EmptyString
  | String c s' => String (lowerAscii c) (toLowerCase s')
  end.

(** White space and line terminators of the ASCII range. *)
Definition isSpace (c : ascii) : bool :=
  let n := nat_of_ascii c in
  (Nat.eqb n 32 || (Nat.leb 9 n && Nat.leb n 13))%bool.

Fixpoint trimStart (s : string) : string :=
  match s with
  | String c s' => if isSpace c then trimStart s' else s
  | EmptyString => EmptyString
  end.

Fixpoint trimEnd (s : string) : string :=
  match s with
  | EmptyString => EmptyString
  | String c s' =>
      match trimEnd s' with
      | EmptyString => if isSpace c then EmptyString else String c EmptyString
      | t => String c t
      end
  end.

Definition trim (s : string) : string := trimEnd (trimStart s).

Definition startsWith (s p : string) : bool := String.prefix p s.

Definition digitValue (c : ascii) : option Z :=
  let n := nat_of_ascii c in
  if (Nat.leb 48 n && Nat.leb n 57)%bool then Some (Z.of_nat (n - 48)) else None.

(** The longest prefix of decimal digits, read as a number; [None] when
    the string does not start with a digit. *)
Fixpoint digits (acc : option Z) (s : string) : option Z :=
  match s with
  | EmptyString => acc
  | String c s' =>
      match digitValue c with
      | Some d =>
          digits (Some (match acc with Some a => 10 * a + d | None => d end)%Z) s'
      | None => acc
      end
  end.

Definition numberToString (n : Z) : string :=
  NilZero.string_of_int (Z.to_int n).

(** [String(v)]. *)
Definition toString (v : value) : string :=
  match v with
  | Undefined => "undefined"
  | Null => "null"
  | Bool true => "true"
  | Bool false => "false"
  | Num n => numberToString n
  | NaN => "NaN"
  | Str s => s
  | Obj => "[object Object]"
  end.

(** [parseInt(v, 10)]: [None] is NaN. *)
Definition parseInt (v : value) : option Z :=
  match trimStart (toString v) with
  | String "-" s => option_map Z.opp (digits None s)
  | String "+" s => digits None s
  | s => digits None s
  end.

End JS.

Import JS.

(* ================================================================== *)
(** ** Node's [path] module, POSIX flavour *)
(* ================================================================== *)

Module Path.

Definition isSlash (c : ascii) : bool := Ascii.eqb c "/".

(** The pieces of a string between its slashes; never the empty list. *)
Fixpoint segments (s : string) : list string :=
  match s with
  | EmptyString => [EmptyString]
  | String c s' =>
      if isSlash c then EmptyString :: segments s'
      else match segments s' with
           | seg :: segs => String c seg :: segs
           | [] => [String c EmptyString]
           end
  end.

Definition nonEmpty (s : string) : bool := negb (String.eqb s "").

(** The names a path walks through. *)
Definition components (s : string) : list string := filter nonEmpty (segments s).

Definition joinSlash (l : list string) : string := String.concat "/" l.

Definition isAbsolute (s : string) : bool :=
  match s with
  | String c _ => isSlash c
  | EmptyString => false
  end.

Fixpoint endsWithSlash (s : string) : bool :=
  match s with
  | EmptyString => false
  | String c EmptyString => isSlash c
  | String _ s' => endsWithSlash s'
  end.

(** One segment of [normalizeString]; [stack] is the result so far, last
    name first. *)
Definition normStep (allowAboveRoot : bool) (stack : list string) (seg : string)
  : list string :=
  if (String.eqb seg "" || String.eqb seg ".")%bool then stack
  else if String.eqb seg ".." then
    match stack with
    | top :: rest =>
        if String.eqb top ".." then (if allowAboveRoot then ".." :: stack else stack)
        else rest
    | [] => if allowAboveRoot then [".."] else []
    end
  else seg :: stack.

Definition normalizeComponents (allowAboveRoot : bool) (segs : list string)
  : list string :=
  rev (fold_left (normStep allowAboveRoot) segs []).

Definition normalizeString (path : string) (allowAboveRoot : bool) : string :=
  joinSlash (normalizeComponents allowAboveRoot (segments path)).

(** The loop of [path.resolve]: arguments from the right until one is
    absolute, then the working directory. *)
Fixpoint resolveLoop (rargs : list string) (cwd resolvedPath : string)
  : string * bool :=
  match rargs with
  | [] =>
      if String.eqb cwd "" then (resolvedPath, false)
      else (cwd ++ "/" ++ resolvedPath, isAbsolute cwd)
  | p :: rest =>
      if String.eqb p "" then resolveLoop rest cwd resolvedPath
      else if isAbsolute p then (p ++ "/" ++ resolvedPath, true)
      else resolveLoop rest cwd (p ++ "/" ++ resolvedPath)
  end.

(** [path.resolve(...args)] in a process whose working directory is [cwd]. *)
Definition resolve (cwd : string) (args : list string) : string :=
  let '(resolvedPath, resolvedAbsolute) := resolveLoop (rev args) cwd "" in
  let r := normalizeString resolvedPath (negb resolvedAbsolute) in
  if resolvedAbsolute then "/" ++ r
  else if String.eqb r "" then "." else r.

(** [path.normalize]. *)
Definition normalize (path : string) : string :=
  if String.eqb path "" then "."
  else
    let r := normalizeString path (negb (isAbsolute path)) in
    if String.eqb r "" then
      (if isAbsolute path then "/" else if endsWithSlash path then "./" else ".")
    else
      let r' := if endsWithSlash path then r ++ "/" else r in
      if isAbsolute path then "/" ++ r' else r'.

(** [path.join(...args)]. *)
Definition join (args : list string) : string :=
  match filter nonEmpty args with
  | [] => "."
  | parts => normalize (joinSlash parts)
  end.

Fixpoint stripCommon (a b : list string) : list string * list string :=
  match a, b with
  | x :: a', y :: b' => if String.eqb x y then stripCommon a' b' else (a, b)
  | _, _ => (a, b)
  end.

(** [path.relative(from, to)]. *)
Definition relative (cwd from to : string) : string :=
  if String.eqb from to then ""
  else
    let from' := resolve cwd [from] in
    let to' := resolve cwd [to] in
    if String.eqb from' to' then ""
    else
      let '(up, down) := stripCommon (components from') (components to') in
      joinSlash (map (fun _ => "..") up ++ down)%list.

(** The last name of a path, trailing slashes ignored. *)
Definition lastComponent (path : string) : string := last (components path) "".

Fixpoint dropTrailingEmpty (segs : list string) : list string :=
  match segs with
  | [] => []
  | s :: rest =>
      match dropTrailingEmpty rest with
      | [] => if String.eqb s "" then [] else [s]
      | rest' => s :: rest'
      end
  end.

(** [path.dirname]. *)
Definition dirname (path : string) : string :=
  if String.eqb path "" then "."
  else
    let d := joinSlash (removelast (dropTrailingEmpty (segments path))) in
    if String.eqb d "" then (if isAbsolute path then "/" else ".")
    else if (isAbsolute path && String.eqb d "/")%bool then "//"
    else d.

(** Splits a name at its last dot: [Some (before, from the dot on)]. *)
Fixpoint lastDotSplit (s : string) : option (string * string) :=
  match s with
  | EmptyString => None
  | String c s' =>
      match lastDotSplit s' with
      | Some (pre, suf) => Some (String c pre, suf)
      | None => if Ascii.eqb c "." then Some (EmptyString, s) else None
      end
  end.

(** [path.extname]. *)
Definition extname (path : string) : string :=
  let b := lastComponent path in
  match lastDotSplit b with
  | Some (pre, suf) =>
      if (String.eqb pre "" || String.eqb b "..")%bool then "" else suf
  | None => ""
  end.

(** [Some pre] when [s = pre ++ suffix]. *)
Fixpoint stripSuffix (suffix s : string) : option string :=
  if String.eqb s suffix then Some EmptyString
  else match s with
       | EmptyString => None
       | String c s' => option_map (String c) (stripSuffix suffix s')
       end.

(** [path.basename(path)] and [path.basename(path, suffix)]. *)
Definition basename (path : string) (suffix : option string) : string :=
  let b := lastComponent path in
  match suffix with
  | None => b
  | Some sfx =>
      if (String.eqb sfx "" || Nat.ltb (String.length path) (String.length sfx))%bool
      then b
      else if String.eqb sfx path then ""
      else match stripSuffix sfx b with
           | Some pre => if String.eqb pre "" then b else pre
           | None => b
           end
  end.

End Path.

(* ================================================================== *)
(** ** The file system seen through Node's [fs] module *)
(* ================================================================== *)

Module Fs.

(** What a path leads to.  A [Dir] carries its listing, each entry with
    the node it names; [Locked] is a directory whose listing cannot be
    read; [Other] is anything that is neither a regular file nor a
    directory (a directory entry that is a symbolic link, a socket, a
    device). *)
#[local] Set Warnings "-register-all".
Inductive node : Type :=
| File
| Dir (entries : list (string * node))
| Locked
| Other.

Definition isDirectory (n : node) : bool :=
  match n with Dir _ | Locked => true | _ => false end.

Definition isFile (n : node) : bool :=
  match n with File => true | _ => false end.

Fixpoint findEntry (name : string) (entries : list (string * node)) : option node :=
  match entries with
  | [] => None
  | (n, child) :: rest => if String.eqb n name then Some child else findEntry name rest
  end.

Fixpoint walk (n : node) (names : list string) : option node :=
  match names with
  | [] => Some n
  | name :: rest =>
      match n with
      | Dir entries =>
          match findEntry name entries with
          | Some child => walk child rest
          | None => None
          end
      | _ => None
      end
  end.

(** The node at an absolute, normalised path under the root directory. *)
Definition lookup (root : node) (path : string) : option node :=
  walk root (Path.components path).

Definition existsSync (root : node) (path : string) : bool :=
  match lookup root path with Some _ => true | None => false end.

(** [fs.existsSync(p) ? fs.statSync(p) : null], then
    [stat && stat.isDirectory()]. *)
Definition statIsDirectory (root : node) (path : string) : bool :=
  match lookup root path with Some n => isDirectory n | None => false end.

(** The message of the error [fs.readdirSync] throws on a node that has
    no readable listing. *)
Definition scandirError (n : node) (path : string) : string :=
  match n with
  | Locked => "EACCES: permission denied, scandir '" ++ path ++ "'"
  | _ => "ENOTDIR: not a directory, scandir '" ++ path ++ "'"
  end.

(** Replaces the entry [name] by [f] of it, or appends [f] of a new empty
    directory when there is none. *)
Fixpoint updateEntry (name : string) (f : node -> option node)
  (entries : list (string * node)) : option (list (string * node)) :=
  match entries with
  | [] => option_map (fun child => [(name, child)]) (f (Dir []))
  | (n, child) :: rest =>
      if String.eqb n name then option_map (fun child' => (n, child') :: rest) (f child)
      else option_map (cons (n, child)) (updateEntry name f rest)
  end.

(** [mkdir -p] along [names]; [None] when a name on the way is not a
    directory that can be entered. *)
Fixpoint mkdirp (names : list string) (n : node) : option node :=
  match names with
  | [] => if isDirectory n then Some n else None
  | name :: rest =>
      match n with
      | Dir entries => option_map Dir (updateEntry name (mkdirp rest) entries)
      | _ => None
      end
  end.

(** [fs.mkdirSync(path, { recursive: true })]. *)
Definition mkdirSync (root : node) (path : string) : result node :=
  match mkdirp (Path.components path) root with
  | Some root' => Ok root'
  | None => Throw ("ENOTDIR: not a directory, mkdir '" ++ path ++ "'")
  end.

(** Puts a regular file at [names], in directories that exist. *)
Fixpoint putFile (names : list string) (n : node) : option node :=
  match names with
  | [] => match n with File => Some File | _ => None end
  | [name] =>
      match n with
      | Dir entries =>
          match findEntry name entries with
          | Some File | None =>
              option_map Dir (updateEntry name (fun _ => Some File) entries)
          | Some _ => None
          end
      | _ => None
      end
  | name :: rest =>
      match n with
      | Dir entries =>
          match findEntry name entries with
          | Some child => option_map Dir (updateEntry name (putFile rest) entries)
          | None => None
          end
      | _ => None
      end
  end.

End Fs.

Import Fs.

(* ================================================================== *)
(** ** The host: image library, regular expressions, floating point *)
(* ================================================================== *)

Inductive fitMode : Type := Cover | Contain.

(** The calls the commands chain on a [sharp(input)] pipeline. *)
Inductive call : Type :=
| Resize (width height : option Z) (fit : option fitMode) (position : value)
| Extract (left top : Z) (width height : option Z)
| ToFormat (format : value) (quality : value)
| WithMetadataOrientation
| Png (compressionLevel : value) (palette : bool)
| Webp (lossless : bool) (quality : value)
| Jpeg (quality : value) (mozjpeg : bool).

Definition pipeline : Type := list call.

(** What the program takes from its host and this development leaves
    open:
    - [metadata root input]: the pixel width and height [sharp(input)
      .metadata()] reports, or the error it throws;
    - [toFile root input calls output]: running the pipeline [calls] on
      [input] and writing [output]: the file system afterwards and whether
      the call threw;
    - [replaceAtEnd subject ext replacement]:
      [subject.replace(new RegExp(ext + '$'), replacement)];
    - [floorScale size num den]: [Math.floor(size * (num / den))] in
      double-precision arithmetic. *)
Record Host : Type := {
  metadata : node -> string -> result (Z * Z);
  toFile : node -> string -> pipeline -> string -> node * result unit;
  replaceAtEnd : string -> string -> string -> result string;
  floorScale : Z -> Z -> Z -> Z
}.

(** The option object a command hands to [processImages]; a field the
    command does not set is [Undefined]. *)
Record Options : Type := {
  format : value;
  quality : value;
  lossless : value;
  width : value;
  height : value;
  position : value;
  newExtension : value
}.

Definition includes (l : list string) (s : string) : bool :=
  existsb (String.eqb s) l.

Definition joinWith (sep : string) (l : list string) : string := String.concat sep l.

(* ================================================================== *)
(** ** [src/utils/files.js]: discovery *)
(* ================================================================== *)

Definition IMAGE_EXTENSIONS : list string :=
  [".jpg"; ".jpeg"; ".png"; ".webp"; ".gif"; ".tiff"; ".tif"].

Definition isImageFile (filePath : string) : bool :=
  let ext := toLowerCase (Path.extname filePath) in
  includes IMAGE_EXTENSIONS ext.

(** A list of image paths together with the lines written to the console
    while collecting them. *)
Definition found : Type := (list string * list string)%type.

Definition both (a b : found) : found :=
  ((fst a ++ fst b)%list, (snd a ++ snd b)%list).

(** [findImagesInDirectory(dirPath)], where [n] is the node [dirPath]
    leads to: [fs.readdirSync] lists [n], and the recursive call on
    [fullPath] lists the entry's own node. *)
Fixpoint findImagesInDirectory (cwd dirPath : string) (n : node) : found :=
  match n with
  | Dir entries =>
      (fix each (entries : list (string * node)) : found :=
         match entries with
         | [] => ([], [])
         | (name, entry) :: rest =>
             let fullPath := Path.join [dirPath; name] in
             both
               (if isDirectory entry then findImagesInDirectory cwd fullPath entry
                else if (isFile entry && isImageFile fullPath)%bool
                     then ([Path.resolve cwd [fullPath]], [])
                     else ([], []))
               (each rest)
         end) entries
  | _ => ([], ["Error reading directory " ++ dirPath ++ ": " ++ scandirError n dirPath])
  end.

(** [findImages(paths)]. *)
Fixpoint findImages (cwd : string) (root : node) (paths : list string) : found :=
  match paths with
  | [] => ([], [])
  | inputPath :: rest =>
      let absolutePath := Path.resolve cwd [inputPath] in
      both
        (match lookup root absolutePath with
         | None => ([], ["Error: Path does not exist: " ++ inputPath])
         | Some stat =>
             if isDirectory stat then findImagesInDirectory cwd absolutePath stat
             else if (isFile stat && isImageFile absolutePath)%bool
                  then ([absolutePath], [])
                  else ([], ["Skipping non-image file: " ++ inputPath])
         end)
        (findImages cwd root rest)
  end.

(* ================================================================== *)
(** ** [src/commands/convert.js] *)
(* ================================================================== *)

Definition SUPPORTED_FORMATS : list string := ["jpeg"; "jpg"; "png"; "webp"; "tiff"].

Definition notAString (method : string) : string :=
  "Cannot read properties of undefined (reading '" ++ method ++ "')".

(** [convertImage(inputPath, outputPath, options)]. *)
Definition convertImage (host : Host) (root : node) (inputPath outputPath : string)
  (options : Options) : node * result unit :=
  match format options with
  | Str fmt =>
      if negb (includes SUPPORTED_FORMATS (toLowerCase fmt)) then
        (root, Throw ("Unsupported format: " ++ fmt ++ ". Supported formats: "
                      ++ joinWith ", " SUPPORTED_FORMATS))
      else
        let normalizedFormat :=
          if String.eqb (toLowerCase fmt) "jpg" then "jpeg" else toLowerCase fmt in
        let formatQuality :=
          match quality options with
          | Undefined => Undefined
          | q => if (String.eqb normalizedFormat "jpeg"
                     || String.eqb normalizedFormat "webp")%bool
                 then q else Undefined
          end in
        toFile host root inputPath [ToFormat (Str normalizedFormat) formatQuality] outputPath
  | _ => (root, Throw (notAString "toLowerCase"))
  end.

(** [getExtensionForFormat(format)]. *)
Definition getExtensionForFormat (fmt : value) : result string :=
  match fmt with
  | Str f =>
      let normalized := toLowerCase f in
      Ok (if (String.eqb normalized "jpeg" || String.eqb normalized "jpg")%bool
          then ".jpg" else "." ++ normalized)
  | _ => Throw (notAString "toLowerCase")
  end.

(* ================================================================== *)
(** ** [src/utils/output.js]: output target and per-file path *)
(* ================================================================== *)

Record OutputInfo : Type := {
  outputBase : string;
  isDirectoryTarget : bool;   (* the [isDirectory] field *)
  isSingleFile : bool
}.

Definition dquote : string := String (ascii_of_nat 34) EmptyString.

(** The message of [path.resolve(undefined)]. *)
Definition invalidPathArgument : string :=
  "The " ++ dquote ++ "paths[0]" ++ dquote
  ++ " argument must be of type string. Received undefined".

(** [resolveOutputPath(inputs, outOption)] in a process whose working
    directory is [cwd], on the file system [root]. *)
Definition resolveOutputPath (cwd : string) (root : node) (inputs : list string)
  (outOption : value) : result OutputInfo :=
  if truthy outOption then
    match outOption with
    | Str out =>
        bind
          (if (startsWith out "./" || startsWith out "../")%bool then
             match nth_error inputs 0 with
             | Some first =>
                 let firstInputAbsolute := Path.resolve cwd [first] in
                 if statIsDirectory root firstInputAbsolute
                 then Ok (Path.resolve cwd [Path.dirname firstInputAbsolute; out])
                 else Ok (Path.resolve cwd [Path.dirname firstInputAbsolute; out])
             | None => Throw invalidPathArgument
             end
           else Ok (Path.resolve cwd [out]))
          (fun outputPath =>
             Ok {| outputBase := outputPath;
                   isDirectoryTarget := true;
                   isSingleFile := false |})
    | _ => Throw "outputPath.startsWith is not a function"
    end
  else
    match inputs with
    | [only] =>
        let inputPath := Path.resolve cwd [only] in
        if statIsDirectory root inputPath then
          Ok {| outputBase := inputPath ++ "-imgwork";
                isDirectoryTarget := true;
                isSingleFile := false |}
        else
          let dir := Path.dirname inputPath in
          let ext := Path.extname inputPath in
          let basename := Path.basename inputPath (Some ext) in
          Ok {| outputBase := Path.join [dir; basename ++ "-imgwork" ++ ext];
                isDirectoryTarget := false;
                isSingleFile := true |}
    | _ =>
        Ok {| outputBase := Path.resolve cwd [cwd; "imgwork-output"];
              isDirectoryTarget := true;
              isSingleFile := false |}
    end.

(** The loop of [getOutputFilePath] over [allInputs]: the base directory
    set by the first input whose absolute path [inputFile] starts with,
    [None] ([null]) when the loop ends without one. *)
Fixpoint owningBaseDir (cwd : string) (root : node) (inputFile : string)
  (allInputs : list string) : option string :=
  match allInputs with
  | [] => None
  | input :: rest =>
      let inputAbsolute := Path.resolve cwd [input] in
      if startsWith inputFile inputAbsolute then
        if statIsDirectory root inputAbsolute then Some inputAbsolute
        else Some (Path.dirname inputAbsolute)
      else owningBaseDir cwd root inputFile rest
  end.

(** [getOutputFilePath(inputFile, allInputs, outputInfo, newExtension)]. *)
Definition getOutputFilePath (host : Host) (cwd : string) (root : node)
  (inputFile : string) (allInputs : list string) (outputInfo : OutputInfo)
  (newExtension : value) : result string :=
  if isSingleFile outputInfo then
    if truthy newExtension then
      let ext := Path.extname (outputBase outputInfo) in
      replaceAtEnd host (outputBase outputInfo) ext (toString newExtension)
    else Ok (outputBase outputInfo)
  else
    let ext := toString (or_else newExtension (Str (Path.extname inputFile))) in
    let basename := Path.basename inputFile (Some (Path.extname inputFile)) in
    let baseDir :=
      match owningBaseDir cwd root inputFile allInputs with
      | Some dir => if String.eqb dir "" then Path.dirname inputFile else dir
      | None => Path.dirname inputFile
      end in
    let relativePath := Path.relative cwd baseDir (Path.dirname inputFile) in
    let outputDir := Path.join [outputBase outputInfo; relativePath] in
    Ok (Path.join [outputDir; basename ++ ext]).

(** [ensureDirectoryExists(dirPath)]. *)
Definition ensureDirectoryExists (root : node) (dirPath : string) : result node :=
  if negb (existsSync root dirPath) then mkdirSync root dirPath else Ok root.

(* ================================================================== *)
(** ** [src/commands/crop.js] *)
(* ================================================================== *)

Definition POSITION_MAP : list (string * string) :=
  [("center", "centre"); ("top", "north"); ("bottom", "south");
   ("left", "west"); ("right", "east"); ("top-left", "northwest");
   ("top-right", "northeast"); ("bottom-left", "southwest");
   ("bottom-right", "southeast")].

(** The lower-case names every object inherits a member for. *)
Definition inheritedLowerCase : list string := ["constructor"; "__proto__"].

Fixpoint ownProperty (map : list (string * string)) (key : string) : option string :=
  match map with
  | [] => None
  | (k, v) :: rest => if String.eqb k key then Some v else ownProperty rest key
  end.

(** [object[key]] for an object literal with the members [map], at a
    lower-case [key]. *)
Definition property (map : list (string * string)) (key : string) : value :=
  match ownProperty map key with
  | Some v => Str v
  | None => if includes inheritedLowerCase key then Obj else Undefined
  end.

Definition invalidPosition (position : string) : string :=
  "Invalid position: " ++ position ++ ". Valid positions: "
  ++ joinWith ", " (map fst POSITION_MAP).

(** [const { position = 'center' } = options]. *)
Definition positionOrDefault (options : Options) : value :=
  match position options with
  | Undefined => Str "center"
  | v => v
  end.

(** [isNaN(n) || n <= 0] on the outcome of [parseInt]. *)
Definition notPositive (n : option Z) : bool :=
  match n with
  | None => true
  | Some z => (z <=? 0)%Z
  end.

(** The earlier [cropImage]: both sizes required, the cut made by the
    library's cover-fit resize. *)
Definition cropImage_resize (host : Host) (root : node) (inputPath outputPath : string)
  (options : Options) : node * result unit :=
  if (negb (truthy (width options)) || negb (truthy (height options)))%bool then
    (root, Throw "Both --w (width) and --h (height) are required for cropping")
  else
    let w := parseInt (width options) in
    let h := parseInt (height options) in
    if notPositive w then (root, Throw "Width must be a positive number")
    else if notPositive h then (root, Throw "Height must be a positive number")
    else
      match positionOrDefault options with
      | Str position =>
          let pos := toLowerCase position in
          if negb (truthy (property POSITION_MAP pos)) then
            (root, Throw (invalidPosition position))
          else
            toFile host root inputPath
              [Resize w h (Some Cover) (property POSITION_MAP pos)] outputPath
      | _ => (root, Throw "position.toLowerCase is not a function")
      end.

(** A size that is [null] or a number. *)
Definition size : Type := option Z.

Definition sizeTruthy (s : size) : bool :=
  match s with
  | Some n => negb (Z.eqb n 0)
  | None => false
  end.

(** A size used as a number: [null] counts as 0. *)
Definition sizeNumber (s : size) : Z :=
  match s with Some n => n | None => 0%Z end.

(** [parseDimension(value, originalSize)]. *)
Definition parseDimension (v : value) (originalSize : Z) : result size :=
  if negb (truthy v) then Ok None
  else
    let strValue := trim (toLowerCase (toString v)) in
    if String.eqb strValue "half" then Ok (Some (originalSize / 2)%Z)
    else if String.eqb strValue "quarter" then Ok (Some (originalSize / 4)%Z)
    else if String.eqb strValue "third" then Ok (Some (originalSize / 3)%Z)
    else
      let num := parseInt v in
      if notPositive num then
        Throw ("Invalid dimension value: " ++ toString v
               ++ ". Use a positive number or keywords: half, quarter, third")
      else Ok num.

(** [case name:] of a [switch (position)]. *)
Definition isCase (position : value) (name : string) : bool :=
  match position with
  | Str s => String.eqb s name
  | _ => false
  end.

(** [calculateCropCoordinates(imgWidth, imgHeight, cropWidth, cropHeight,
    position)]: the pair [(left, top)]. *)
Definition calculateCropCoordinates (imgWidth imgHeight cropWidth cropHeight : Z)
  (position : value) : Z * Z :=
  let centredLeft := Z.max 0 ((imgWidth - cropWidth) / 2) in
  let centredTop := Z.max 0 ((imgHeight - cropHeight) / 2) in
  let farLeft := Z.max 0 (imgWidth - cropWidth) in
  let farTop := Z.max 0 (imgHeight - cropHeight) in
  if (isCase position "center" || isCase position "centre")%bool then
    (centredLeft, centredTop)
  else if (isCase position "top" || isCase position "north")%bool then
    (centredLeft, 0%Z)
  else if (isCase position "bottom" || isCase position "south")%bool then
    (centredLeft, farTop)
  else if (isCase position "left" || isCase position "west")%bool then
    (0%Z, centredTop)
  else if (isCase position "right" || isCase position "east")%bool then
    (farLeft, centredTop)
  else if (isCase position "top-left" || isCase position "northwest")%bool then
    (0%Z, 0%Z)
  else if (isCase position "top-right" || isCase position "northeast")%bool then
    (farLeft, 0%Z)
  else if (isCase position "bottom-left" || isCase position "southwest")%bool then
    (0%Z, farTop)
  else if (isCase position "bottom-right" || isCase position "southeast")%bool then
    (farLeft, farTop)
  else (centredLeft, centredTop).

Definition sizeToString (s : size) : string :=
  match s with Some n => numberToString n | None => "null" end.

Definition cropWidthExceeds (cropWidth : size) (imgWidth : Z) : string :=
  "Crop width (" ++ sizeToString cropWidth ++ ") exceeds image width ("
  ++ numberToString imgWidth ++ ")".

Definition cropHeightExceeds (cropHeight : size) (imgHeight : Z) : string :=
  "Crop height (" ++ sizeToString cropHeight ++ ") exceeds image height ("
  ++ numberToString imgHeight ++ ")".

(** The sizes of the cut once a missing one is derived from the other. *)
Definition completeSizes (host : Host) (imgWidth imgHeight : Z)
  (cropWidth cropHeight : size) : size * size :=
  if (sizeTruthy cropWidth && negb (sizeTruthy cropHeight))%bool then
    (cropWidth, Some (floorScale host (sizeNumber cropWidth) imgHeight imgWidth))
  else if (sizeTruthy cropHeight && negb (sizeTruthy cropWidth))%bool then
    (Some (floorScale host (sizeNumber cropHeight) imgWidth imgHeight), cropHeight)
  else (cropWidth, cropHeight).

(** The later [cropImage]: at least one size, the other derived, the cut
    made by [extract] after a check against the image's own size. *)
Definition cropImage_extract (host : Host) (root : node) (inputPath outputPath : string)
  (options : Options) : node * result unit :=
  if (negb (truthy (width options)) && negb (truthy (height options)))%bool then
    (root, Throw "At least one of --w (width) or --h (height) must be specified for cropping")
  else
    match positionOrDefault options with
    | Str position =>
        let pos := toLowerCase position in
        if negb (truthy (property POSITION_MAP pos)) then
          (root, Throw (invalidPosition position))
        else
          match metadata host root inputPath with
          | Throw m => (root, Throw m)
          | Ok (imgWidth, imgHeight) =>
              match parseDimension (width options) imgWidth with
              | Throw m => (root, Throw m)
              | Ok parsedWidth =>
                  match parseDimension (height options) imgHeight with
                  | Throw m => (root, Throw m)
                  | Ok parsedHeight =>
                      let '(cropWidth, cropHeight) :=
                        completeSizes host imgWidth imgHeight parsedWidth parsedHeight in
                      if (sizeNumber cropWidth >? imgWidth)%Z then
                        (root, Throw (cropWidthExceeds cropWidth imgWidth))
                      else if (sizeNumber cropHeight >? imgHeight)%Z then
                        (root, Throw (cropHeightExceeds cropHeight imgHeight))
                      else
                        let '(cropLeft, cropTop) :=
                          calculateCropCoordinates imgWidth imgHeight
                            (sizeNumber cropWidth) (sizeNumber cropHeight)
                            (property POSITION_MAP pos) in
                        toFile host root inputPath
                          [Extract cropLeft cropTop cropWidth cropHeight] outputPath
                  end
              end
          end
    | _ => (root, Throw "position.toLowerCase is not a function")
    end.

(* ================================================================== *)
(** ** [src/commands/optimize.js] *)
(* ================================================================== *)

(** The format [optimizeImage] reads off the input's extension; [Null]
    when it is none of the known ones. *)
Definition detectFormat (inputPath : string) : value :=
  let ext := toLowerCase (Path.extname inputPath) in
  if (String.eqb ext ".jpg" || String.eqb ext ".jpeg")%bool then Str "jpeg"
  else if String.eqb ext ".png" then Str "png"
  else if String.eqb ext ".webp" then Str "webp"
  else if (String.eqb ext ".tiff" || String.eqb ext ".tif")%bool then Str "tiff"
  else if String.eqb ext ".gif" then Str "gif"
  else Null.

(** [Math.round((100 - q) / 10)] clamped to 0..9. *)
Definition pngCompressionLevel (q : Z) : Z :=
  Z.max 0 (Z.min 9 ((100 - q + 5) / 10)).

Definition bothQualityAndLossless : string :=
  "Cannot use both --quality and --lossless. Choose one.".

Definition qualityOutOfRange : string :=
  "Quality must be a number between 1 and 100".

(** A size as the value handed to the library. *)
Definition sizeValue (s : size) : value :=
  match s with Some n => Num n | None => Null end.

Definition neitherQualityNorLossless : string :=
  "Either --quality <number> or --lossless flag must be specified".

(** [optimizeImage(inputPath, outputPath, options)]. *)
Definition optimizeImage (host : Host) (root : node) (inputPath outputPath : string)
  (options : Options) : node * result unit :=
  if (negb (truthy (quality options)) && negb (truthy (lossless options)))%bool then
    (root, Throw neitherQualityNorLossless)
  else if (truthy (quality options) && truthy (lossless options))%bool then
    (root, Throw bothQualityAndLossless)
  else
    let parsed : result size :=
      if truthy (quality options) then
        match parseInt (quality options) with
        | None => Throw qualityOutOfRange
        | Some n =>
            if ((n <? 1)%Z || (n >? 100)%Z)%bool then Throw qualityOutOfRange
            else Ok (Some n)
        end
      else Ok None in
    match parsed with
    | Throw m => (root, Throw m)
    | Ok q =>
        let fmt := detectFormat inputPath in
        let isFormat (name : string) := isCase fmt name in
        let chosen : pipeline :=
          if truthy (lossless options) then
            WithMetadataOrientation
            :: (if isFormat "png" then [Png (Num 9) true]
                else if isFormat "webp" then [Webp true Undefined]
                else if isFormat "jpeg" then [Jpeg (Num 100) true]
                else [ToFormat fmt Undefined])
          else
            if isFormat "jpeg" then [Jpeg (sizeValue q) true]
            else if isFormat "webp" then [Webp false (sizeValue q)]
            else if isFormat "png" then
              [Png (Num (pngCompressionLevel (sizeNumber q))) false]
            else [ToFormat fmt Undefined] in
        toFile host root inputPath chosen outputPath
    end.

(* ================================================================== *)
(** ** [src/processor.js]: the batch *)
(* ================================================================== *)

Record BatchResult : Type := {
  total : nat;
  successful : nat;
  failed : nat;
  errors : list (string * string)   (* [{ file, error }] *)
}.

(** The type of [processFunc]: it may change the file system and may
    throw. *)
Definition processor : Type :=
  node -> string -> string -> Options -> node * result unit.

Section Batch.

Variable host : Host.
Variable cwd : string.
Variables (inputs : list string) (outputInfo : OutputInfo).
Variables (processFunc : processor) (options : Options).

(** The body of the [try] block for one file. *)
Definition processFile (root : node) (inputFile : string) : node * result unit :=
  match getOutputFilePath host cwd root inputFile inputs outputInfo
          (or_else (newExtension options) Null) with
  | Throw m => (root, Throw m)
  | Ok outputPath =>
      let outputDir := Path.dirname outputPath in
      match ensureDirectoryExists root outputDir with
      | Throw m => (root, Throw m)
      | Ok root' => processFunc root' inputFile outputPath options
      end
  end.

(** The [for] loop from index [i] on, [files] being the files left. *)
Fixpoint processLoop (root : node) (files : list string) (results : BatchResult)
  : node * BatchResult :=
  match files with
  | [] => (root, results)
  | inputFile :: rest =>
      let fileName := Path.basename inputFile None in
      match processFile root inputFile with
      | (root', Ok _) =>
          processLoop root' rest
            {| total := total results;
               successful := S (successful results);
               failed := failed results;
               errors := errors results |}
      | (root', Throw message) =>
          processLoop root' rest
            {| total := total results;
               successful := successful results;
               failed := S (failed results);
               errors := (errors results ++ [(fileName, message)])%list |}
      end
  end.

(** [processImages(files, inputs, outputInfo, processFunc, options)]. *)
Definition processImages (root : node) (files : list string) : node * BatchResult :=
  let results :=
    {| total := List.length files; successful := 0; failed := 0; errors := [] |} in
  if Nat.eqb (List.length files) 0 then (root, results)
  else processLoop root files results.

End Batch.

(* ================================================================== *)
(** ** [index.js]: the commands *)
(* ================================================================== *)

(** The options commander parses for a command; one it has not seen and
    that has no default is [Undefined]. *)
Record Flags : Type := {
  flag_to : value;
  flag_quality : value;
  flag_lossless : value;
  flag_w : value;
  flag_h : value;
  flag_pos : value;
  flag_out : value
}.

(** How an invocation ends: the exit status of the process, the file
    system it leaves, and the batch summary when a batch ran. *)
Record Outcome : Type := {
  status : Z;
  disk : node;
  summary : option BatchResult
}.

(** [process.exit(1)]. *)
Definition exit1 (root : node) : Outcome :=
  {| status := 1; disk := root; summary := None |}.

(** The action returns and the process ends on its own. *)
Definition finished (end_ : node * BatchResult) : Outcome :=
  {| status := 0; disk := fst end_; summary := Some (snd end_) |}.

Definition numberOrNaN (n : option Z) : value :=
  match n with Some z => Num z | None => NaN end.

Section Commands.

Variable host : Host.
Variable cwd : string.

(** The action of [convert]. *)
Definition convertAction (root : node) (files : list string) (flags : Flags) : Outcome :=
  let fmt := flag_to flags in
  let quality := numberOrNaN (parseInt (flag_quality flags)) in
  let images := fst (findImages cwd root files) in
  if Nat.eqb (List.length images) 0 then exit1 root
  else
    match resolveOutputPath cwd root files (or_else (flag_out flags) Null) with
    | Throw _ => exit1 root
    | Ok outputInfo =>
        match getExtensionForFormat fmt with
        | Throw _ => exit1 root
        | Ok newExtension =>
            finished
              (processImages host cwd files outputInfo (convertImage host)
                 {| format := fmt; quality := quality; lossless := Undefined;
                    width := Undefined; height := Undefined; position := Undefined;
                    newExtension := Str newExtension |}
                 root images)
        end
    end.

(** The action callback of [crop], for the [cropImage] the command module
    exports.  Commander calls it only once the required options [--w] and
    [--h] have values: the command as a whole is [cropCommand]. *)
Definition cropAction (cropImage : processor) (root : node) (files : list string)
  (flags : Flags) : Outcome :=
  let images := fst (findImages cwd root files) in
  if Nat.eqb (List.length images) 0 then exit1 root
  else
    match resolveOutputPath cwd root files (or_else (flag_out flags) Null) with
    | Throw _ => exit1 root
    | Ok outputInfo =>
        finished
          (processImages host cwd files outputInfo cropImage
             {| format := Undefined; quality := Undefined; lossless := Undefined;
                width := flag_w flags; height := flag_h flags;
                position := flag_pos flags; newExtension := Undefined |}
             root images)
    end.

(** The action of [optimize]. *)
Definition optimizeAction (root : node) (files : list string) (flags : Flags) : Outcome :=
  if (negb (truthy (flag_quality flags)) && negb (truthy (flag_lossless flags)))%bool
  then exit1 root
  else
    let images := fst (findImages cwd root files) in
    if Nat.eqb (List.length images) 0 then exit1 root
    else
      match resolveOutputPath cwd root files (or_else (flag_out flags) Null) with
      | Throw _ => exit1 root
      | Ok outputInfo =>
          finished
            (processImages host cwd files outputInfo (optimizeImage host)
               {| format := Undefined; quality := flag_quality flags;
                  lossless := flag_lossless flags;
                  width := Undefined; height := Undefined; position := Undefined;
                  newExtension := Undefined |}
               root images)
      end.

End Commands.

(* ================================================================== *)
(** ** Vocabulary of the properties *)
(* ================================================================== *)

Module Names.

Fixpoint hasSlash (s : string) : bool :=
  match s with
  | EmptyString => false
  | String c s' => (Path.isSlash c || hasSlash s')%bool
  end.

(** A name a directory entry can bear: not empty, no slash, neither [.]
    nor [..]. *)
Definition validName (s : string) : bool :=
  (Path.nonEmpty s && negb (hasSlash s)
   && negb (String.eqb s ".") && negb (String.eqb s ".."))%bool.

Definition validNames (names : list string) : bool := forallb validName names.

(** A segment that normalisation keeps or drops as it is: empty, or a
    valid name. *)
Definition plainSegment (s : string) : bool :=
  (String.eqb s "" || validName s)%bool.

(** A path whose segments hold no [.] and no [..]. *)
Definition plainPath (path : string) : bool :=
  forallb plainSegment (Path.segments path).

(** The absolute path that walks through [names]. *)
Definition absolute (names : list string) : string := "/" ++ Path.joinSlash names.

(** Every entry of every listing bears a valid name. *)
Fixpoint wellNamed (n : node) : bool :=
  match n with
  | Dir entries =>
      (fix each (entries : list (string * node)) : bool :=
         match entries with
         | [] => true
         | (name, entry) :: rest => (validName name && wellNamed entry && each rest)%bool
         end) entries
  | _ => true
  end.

End Names.

Import Names.

(** The name of a regular file has a recognised image extension. *)
Definition recognised (name : string) : bool :=
  includes IMAGE_EXTENSIONS (toLowerCase (Path.extname name)).

(** The regular files with a recognised extension at any depth under a
    node reached through [here], each as the names leading to it, in
    depth-first listing order. *)
Fixpoint imagePaths (here : list string) (n : node) : list (list string) :=
  match n with
  | Dir entries =>
      (fix each (entries : list (string * node)) : list (list string) :=
         match entries with
         | [] => []
         | (name, entry) :: rest =>
             ((match entry with
               | File => if recognised name then [(here ++ [name])%list] else []
               | Other => []
               | _ => imagePaths (here ++ [name])%list entry
               end) ++ each rest)%list
         end) entries
  | _ => []
  end.

(** The number of regular files under a node, at any depth, whose name
    passes [keep]. *)
Fixpoint countFiles (keep : string -> bool) (n : node) : nat :=
  match n with
  | Dir entries =>
      (fix each (entries : list (string * node)) : nat :=
         match entries with
         | [] => 0
         | (name, entry) :: rest =>
             (match entry with
              | File => if keep name then 1 else 0
              | _ => countFiles keep entry
              end) + each rest
         end) entries
  | _ => 0
  end.

(** The first input whose absolute path the file's path starts with. *)
Definition owner (cwd : string) (inputFile : string) (allInputs : list string)
  : option string :=
  find (fun input => startsWith inputFile (Path.resolve cwd [input])) allInputs.

(** The directory a file's position is taken relative to: the owning
    input itself when it is a directory, its parent when it is not, the
    file's own parent when no input owns the file. *)
Definition relativizationBase (cwd : string) (root : node) (inputFile : string)
  (allInputs : list string) : string :=
  match owner cwd inputFile allInputs with
  | Some input =>
      if statIsDirectory root (Path.resolve cwd [input])
      then Path.resolve cwd [input]
      else Path.dirname (Path.resolve cwd [input])
  | None => Path.dirname inputFile
  end.

(** The extension the output file gets: the new one when one is given,
    the input's own otherwise. *)
Definition outputExtension (newExtension : value) (inputFile : string) : string :=
  if truthy newExtension then toString newExtension else Path.extname inputFile.

(** The names of [inner] start with all the names of [outer]: [inner] is
    [outer] or lies under it. *)
Fixpoint namesPrefix (outer inner : list string) : bool :=
  match outer, inner with
  | [], _ => true
  | x :: outer', y :: inner' => (String.eqb x y && namesPrefix outer' inner')%bool
  | _ :: _, [] => false
  end.

Definition liesUnder (cwd : string) (file dir : string) : bool :=
  namesPrefix (Path.components (Path.resolve cwd [dir]))
              (Path.components (Path.resolve cwd [file])).

(* ================================================================== *)
(** ** A concrete host and a concrete disk *)
(* ================================================================== *)

(** A host that reads every regular file as a 400x300 image, writes the
    output file when its directory exists, replaces a literal extension
    and scales in exact arithmetic. *)
Definition plainHost : Host :=
  {| metadata := fun root input =>
       match lookup root input with
       | Some File => Ok (400%Z, 300%Z)
       | _ => Throw ("Input file is missing: " ++ input)
       end;
     toFile := fun root input _ output =>
       match lookup root input with
       | Some File =>
           match putFile (Path.components output) root with
           | Some root' => (root', Ok tt)
           | None => (root, Throw ("unable to open for write: " ++ output))
           end
       | _ => (root, Throw ("Input file is missing: " ++ input))
       end;
     replaceAtEnd := fun subject ext replacement =>
       match Path.stripSuffix ext subject with
       | Some pre => Ok (pre ++ replacement)
       | None => Ok subject
       end;
     floorScale := fun size num den => (size * num / den)%Z |}.

(** [/p/photos] with images at three depths and a text file,
    [/p/photos2] beside it, and a loose image. *)
Definition sampleDisk : node :=
  Dir [("p", Dir [("photos", Dir [("x.jpg", File);
                                  ("notes.txt", File);
                                  ("sub", Dir [("y.PNG", File);
                                               ("deep", Dir [("z.webp", File)])])]);
                  ("photos2", Dir [("x.jpg", File)]);
                  ("solo.png", File)])].

Definition tree (base : string) : OutputInfo :=
  {| outputBase := base; isDirectoryTarget := true; isSingleFile := false |}.


(** [convert photos --to bmp] (with the default [--quality 80]). *)
Definition convertToBmp : Flags :=
  {| flag_to := Str "bmp"; flag_quality := Str "80"; flag_lossless := Undefined;
     flag_w := Undefined; flag_h := Undefined; flag_pos := Undefined;
     flag_out := Undefined |}.

(** [convert photos --to webp]. *)
Definition convertToWebp : Flags :=
  {| flag_to := Str "webp"; flag_quality := Str "80"; flag_lossless := Undefined;
     flag_w := Undefined; flag_h := Undefined; flag_pos := Undefined;
     flag_out := Undefined |}.

(** [optimize photos2 --quality 80 --lossless]. *)
Definition optimizeBoth : Flags :=
  {| flag_to := Undefined; flag_quality := Str "80"; flag_lossless := Bool true;
     flag_w := Undefined; flag_h := Undefined; flag_pos := Undefined;
     flag_out := Undefined |}.

(** The options of [crop --w 800 --h 600] (with the default [--pos center]). *)
Definition crop800x600 : Options :=
  {| format := Undefined; quality := Undefined; lossless := Undefined;
     width := Str "800"; height := Str "600"; position := Str "center";
     newExtension := Undefined |}.

(* ================================================================== *)
(** ** [src/commands/resize.js] and the [resize] command *)
(* ================================================================== *)

Definition neitherWidthNorHeight : string :=
  "At least one of --w (width) or --h (height) must be specified".

(** The [resize] call both variants of [resizeImage] end with, for sizes
    that are [null] or numbers.  [Some Contain] stands for the options
    [{ fit: 'contain', background: { r: 255, g: 255, b: 255, alpha: 0 } }]. *)
Definition resizeCalls (w h : size) : pipeline :=
  if (sizeTruthy w && sizeTruthy h)%bool then [Resize w h (Some Contain) Undefined]
  else if sizeTruthy w then [Resize w None None Undefined]
  else [Resize None h None Undefined].

(** The [resizeImage] that reads the image's size and accepts the
    keywords [half], [quarter] and [third]. *)
Definition resizeImage_keywords (host : Host) (root : node)
  (inputPath outputPath : string) (options : Options) : node * result unit :=
  if (negb (truthy (width options)) && negb (truthy (height options)))%bool then
    (root, Throw neitherWidthNorHeight)
  else
    match metadata host root inputPath with
    | Throw m => (root, Throw m)
    | Ok (imgWidth, imgHeight) =>
        match parseDimension (width options) imgWidth with
        | Throw m => (root, Throw m)
        | Ok w =>
            match parseDimension (height options) imgHeight with
            | Throw m => (root, Throw m)
            | Ok h => toFile host root inputPath (resizeCalls w h) outputPath
            end
        end
    end.

(** [v ? parseInt(v, 10) : null]: [None] is [null], [Some None] is NaN. *)
Definition parsedOrNull (v : value) : option (option Z) :=
  if truthy v then Some (parseInt v) else None.

(** [n !== null && (isNaN(n) || n <= 0)]. *)
Definition givenNotPositive (n : option (option Z)) : bool :=
  match n with
  | None => false
  | Some z => notPositive z
  end.

Definition numberOrNull (n : option (option Z)) : size :=
  match n with
  | Some (Some z) => Some z
  | _ => None
  end.

(** The [resizeImage] that takes plain numbers only. *)
Definition resizeImage_plain (host : Host) (root : node)
  (inputPath outputPath : string) (options : Options) : node * result unit :=
  if (negb (truthy (width options)) && negb (truthy (height options)))%bool then
    (root, Throw neitherWidthNorHeight)
  else
    let w := parsedOrNull (width options) in
    let h := parsedOrNull (height options) in
    if givenNotPositive w then (root, Throw "Width must be a positive number")
    else if givenNotPositive h then (root, Throw "Height must be a positive number")
    else
      toFile host root inputPath (resizeCalls (numberOrNull w) (numberOrNull h))
        outputPath.


(* ================================================================== *)
(** ** [index.js]: the options commander requires *)
(* ================================================================== *)




(* ================================================================== *)
(** ** Further vocabulary *)
(* ================================================================== *)

(** One pass of the batch loop as an observer sees it: the file, the file
    system before and after, and how the pass ended. *)
Record Attempt : Type := {
  attempt_file : string;
  attempt_before : node;
  attempt_after : node;
  attempt_outcome : result unit
}.

Section Attempts.

Variable host : Host.
Variable cwd : string.
Variables (inputs : list string) (outputInfo : OutputInfo).
Variables (processFunc : processor) (options : Options).

(** The file of the attempt was processed: its output path was computed, the
    directory of that path was ensured, and [processFunc] was called with
    the file, the path and the options, on the file system that leaves; the
    attempt ended as [processFunc] did.  When the path or the directory
    fails, that error is how the attempt ended, and the file system is as
    before. *)
Definition processed (a : Attempt) : Prop :=
  match getOutputFilePath host cwd (attempt_before a) (attempt_file a) inputs outputInfo
          (or_else (newExtension options) Null) with
  | Throw message =>
      attempt_outcome a = Throw message /\ attempt_after a = attempt_before a
  | Ok outputPath =>
      match ensureDirectoryExists (attempt_before a) (Path.dirname outputPath) with
      | Throw message =>
          attempt_outcome a = Throw message /\ attempt_after a = attempt_before a
      | Ok made =>
          processFunc made (attempt_file a) outputPath options
          = (attempt_after a, attempt_outcome a)
      end
  end.

End Attempts.

(** The attempts follow one another from [root] to [final]: each starts on
    the file system the one before it left. *)
Fixpoint chained (root : node) (steps : list Attempt) (final : node) : Prop :=
  match steps with
  | [] => final = root
  | a :: rest => attempt_before a = root /\ chained (attempt_after a) rest final
  end.

Definition attempt_failed (a : Attempt) : bool := isThrow (attempt_outcome a).

(** One [(file name, error message)] pair per attempt that failed, in the
    order of the attempts. *)
Fixpoint recorded (steps : list Attempt) : list (string * string) :=
  match steps with
  | [] => []
  | a :: rest =>
      match attempt_outcome a with
      | Throw message => (Path.basename (attempt_file a) None, message) :: recorded rest
      | Ok _ => recorded rest
      end
  end.

Definition withinRange (low high : Z) (v : value) : bool :=
  match v with
  | Num n => ((low <=? n) && (n <=? high))%Z
  | _ => false
  end.

(** An encoder call whose quality is within 1..100 and whose PNG
    compression level is within 0..9, where it has one. *)
Definition encoderInRange (c : call) : bool :=
  match c with
  | Jpeg q _ => withinRange 1 100 q
  | Webp true Undefined => true
  | Webp false q => withinRange 1 100 q
  | Png level _ => withinRange 0 9 level
  | WithMetadataOrientation => true
  | ToFormat _ Undefined => true
  | _ => false
  end.

(** No two entries of a listing bear the same name, at any depth. *)
Fixpoint distinctNames (n : node) : bool :=
  match n with
  | Dir entries =>
      (fix each (entries : list (string * node)) : bool :=
         match entries with
         | [] => true
         | (name, entry) :: rest =>
             (negb (existsb (String.eqb name) (map fst rest))
              && distinctNames entry && each rest)%bool
         end) entries
  | _ => true
  end.

(** The same kind of node: file, directory or neither. *)
Definition sameKind (a b : node) : bool :=
  (Bool.eqb (isFile a) (isFile b) && Bool.eqb (isDirectory a) (isDirectory b))%bool.

(** [offset] leaves as much room before [inner] as after it inside
    [outer], up to one pixel that goes after. *)
Definition centred (outer inner offset : Z) : Prop :=
  (0 <= (outer - inner - offset) - offset <= 1)%Z.


Fixpoint hasDot (s : string) : bool :=
  match s with
  | EmptyString => false
  | String c s' => (Ascii.eqb c "." || hasDot s')%bool
  end.

(** The formats [convertImage] hands to the library. *)
Definition ENCODED_FORMATS : list string := ["jpeg"; "png"; "webp"; "tiff"].

(** [resize photos2 --w 200]. *)
Definition resizeTo200 : Options :=
  {| format := Undefined; quality := Undefined; lossless := Undefined;
     width := Str "200"; height := Undefined; position := Undefined;
     newExtension := Undefined |}.

(* ================================================================== *)
(** * Facts about strings and paths *)
(* ================================================================== *)

Section StringFacts.

Lemma append_empty_r (s : string) : s ++ "" = s.
Proof. induction s as [|c s IH]; simpl; [reflexivity | now rewrite IH]. Qed.

Lemma append_assoc (a b c : string) : (a ++ b) ++ c = a ++ (b ++ c).
Proof. induction a as [|x a IH]; simpl; [reflexivity | now rewrite IH]. Qed.

Lemma append_eq_empty (a b : string) : a ++ b = "" -> a = "" /\ b = "".
Proof. destruct a; simpl; [auto | discriminate]. Qed.

Lemma prefix_append (a b : string) : String.prefix a (a ++ b) = true.
Proof.
  induction a as [|c a IH]; simpl.
  - now destruct b.
  - destruct (ascii_dec c c) as [_|n]; [exact IH | now elim n].
Qed.

Lemma prefix_head (a c : ascii) (p s : string) :
  String.prefix (String a p) (String c s) = true -> a = c.
Proof.
  change (String.prefix (String a p) (String c s))
    with (if ascii_dec a c then String.prefix p s else false).
  destruct (ascii_dec a c); [auto | discriminate].
Qed.

Lemma length_append (a b : string) :
  String.length (a ++ b) = String.length a + String.length b.
Proof. induction a as [|c a IH]; simpl; [reflexivity | now rewrite IH]. Qed.

Lemma slash_append (s : string) : "/" ++ s = String "/" s.
Proof. reflexivity. Qed.

Lemma eqb_false_of_neq (a b : string) : a <> b -> String.eqb a b = false.
Proof. intro H. now apply String.eqb_neq. Qed.

End StringFacts.

Section SegmentFacts.

Lemma segments_not_nil (s : string) : Path.segments s <> [].
Proof.
  induction s as [|c s IH]; simpl; [discriminate|].
  destruct (Path.isSlash c); [discriminate|].
  destruct (Path.segments s); [contradiction | discriminate].
Qed.

(** Cutting at a slash cuts the list of segments. *)
Lemma segments_slash (a b : string) :
  Path.segments (a ++ String "/" b) = (Path.segments a ++ Path.segments b)%list.
Proof.
  induction a as [|c a IH]; simpl; [reflexivity|].
  destruct (Path.isSlash c); simpl; [now rewrite IH|].
  rewrite IH. pose proof (segments_not_nil a) as Hn.
  destruct (Path.segments a); [contradiction | reflexivity].
Qed.

Lemma segments_plain (x : string) : hasSlash x = false -> Path.segments x = [x].
Proof.
  induction x as [|c x IH]; simpl; [reflexivity|].
  intro H. apply orb_false_iff in H as [Hc Hx].
  rewrite Hc, (IH Hx). reflexivity.
Qed.

Lemma validName_plain (x : string) : validName x = true -> hasSlash x = false.
Proof.
  unfold validName. intro H.
  repeat (apply andb_true_iff in H as [H ?]).
  now apply negb_true_iff.
Qed.

Lemma validName_nonEmpty (x : string) : validName x = true -> Path.nonEmpty x = true.
Proof.
  unfold validName. intro H.
  now repeat (apply andb_true_iff in H as [H ?]).
Qed.

Lemma validName_not_empty (x : string) : validName x = true -> x <> "".
Proof.
  intros H ->. discriminate H.
Qed.

Lemma joinSlash_cons (x y : string) (l : list string) :
  Path.joinSlash (x :: y :: l) = x ++ String "/" (Path.joinSlash (y :: l)).
Proof. reflexivity. Qed.

Lemma validNames_cons (x : string) (l : list string) :
  validNames (x :: l) = true <-> validName x = true /\ validNames l = true.
Proof. unfold validNames. simpl. apply andb_true_iff. Qed.

Lemma validNames_app (a b : list string) :
  validNames (a ++ b) = true <-> validNames a = true /\ validNames b = true.
Proof.
  unfold validNames. rewrite forallb_app. apply andb_true_iff.
Qed.

(** The segments of names joined by slashes are the names. *)
Lemma segments_joinSlash (names : list string) :
  names <> [] -> validNames names = true ->
  Path.segments (Path.joinSlash names) = names.
Proof.
  induction names as [|x names IH]; [congruence|].
  intros _ Hall. apply validNames_cons in Hall as [Hx Hrest].
  destruct names as [|y names].
  - simpl. now apply segments_plain, validName_plain.
  - rewrite joinSlash_cons, segments_slash.
    rewrite (segments_plain x) by now apply validName_plain.
    rewrite IH by (congruence || assumption). reflexivity.
Qed.

Lemma filter_nonEmpty_valid (names : list string) :
  validNames names = true -> filter Path.nonEmpty names = names.
Proof.
  induction names as [|x l IH]; simpl; [reflexivity|].
  intro H. apply validNames_cons in H as [Hx Hl].
  now rewrite (validName_nonEmpty x Hx), IH.
Qed.

Lemma filter_nonEmpty_drop (l : list string) :
  filter Path.nonEmpty ("" :: l) = filter Path.nonEmpty l.
Proof. reflexivity. Qed.

Lemma segments_absolute (names : list string) :
  validNames names = true ->
  Path.segments (absolute names)
  = "" :: (match names with [] => [""] | _ => names end).
Proof.
  intro Hall. unfold absolute. simpl.
  destruct names as [|x l]; [reflexivity|].
  now rewrite segments_joinSlash.
Qed.

(** The names an absolute path walks through are the names it was built
    from. *)
Lemma components_absolute (names : list string) :
  validNames names = true -> Path.components (absolute names) = names.
Proof.
  intro Hall. unfold Path.components. rewrite segments_absolute by assumption.
  destruct names as [|x l]; [reflexivity|].
  rewrite filter_nonEmpty_drop. now apply filter_nonEmpty_valid.
Qed.

Lemma absolute_inj (a b : list string) :
  validNames a = true -> validNames b = true -> absolute a = absolute b -> a = b.
Proof.
  intros Ha Hb H.
  rewrite <- (components_absolute a Ha), <- (components_absolute b Hb).
  now rewrite H.
Qed.

Lemma plainSegment_valid (names : list string) :
  validNames names = true -> forallb plainSegment names = true.
Proof.
  induction names as [|x l IH]; simpl; [reflexivity|].
  intro H. apply validNames_cons in H as [Hx Hl].
  unfold plainSegment at 1. rewrite Hx, orb_true_r. now apply IH.
Qed.

Lemma plainPath_absolute (names : list string) :
  validNames names = true -> plainPath (absolute names) = true.
Proof.
  intro H. unfold plainPath. rewrite segments_absolute by assumption.
  destruct names as [|x l]; [reflexivity|].
  change (forallb plainSegment ("" :: x :: l)) with (forallb plainSegment (x :: l)).
  now apply plainSegment_valid.
Qed.

Lemma joinSlash_app (a b : list string) :
  a <> [] -> b <> [] ->
  Path.joinSlash (a ++ b) = Path.joinSlash a ++ String "/" (Path.joinSlash b).
Proof.
  induction a as [|x a IH]; [congruence|]. intros _ Hb.
  destruct a as [|y a].
  - destruct b; [congruence | reflexivity].
  - change ((x :: y :: a) ++ b)%list with (x :: y :: (a ++ b))%list.
    rewrite !joinSlash_cons.
    change (y :: (a ++ b))%list with ((y :: a) ++ b)%list.
    rewrite IH by congruence. now rewrite append_assoc.
Qed.

Lemma joinSlash_valid_not_empty (names : list string) :
  names <> [] -> validNames names = true -> Path.joinSlash names <> "".
Proof.
  destruct names as [|x l]; [congruence|]. intros _ H.
  apply validNames_cons in H as [Hx _].
  destruct l; simpl.
  - now apply validName_not_empty.
  - intro E. apply append_eq_empty in E as [E _]. now apply (validName_not_empty x).
Qed.

(** An absolute path extended by further names. *)
Lemma absolute_app (a b : list string) :
  b <> [] ->
  absolute (a ++ b)
  = (match a with [] => "" | _ => absolute a end) ++ String "/" (Path.joinSlash b).
Proof.
  intro Hb. destruct a as [|x a]; [reflexivity|].
  unfold absolute. rewrite joinSlash_app by congruence.
  now rewrite append_assoc.
Qed.

(** A path starts with the path of every directory above it. *)
Lemma startsWith_absolute (a b : list string) :
  startsWith (absolute (a ++ b)) (absolute a) = true.
Proof.
  unfold startsWith.
  destruct b as [|y b].
  - rewrite app_nil_r. rewrite <- (append_empty_r (absolute a)) at 2.
    apply prefix_append.
  - rewrite absolute_app by congruence.
    destruct a as [|x a]; [|apply prefix_append].
    apply (prefix_append (absolute []) (Path.joinSlash (y :: b))).
Qed.

End SegmentFacts.

Section NormalizeFacts.

Lemma validName_normStep (allow : bool) (stack : list string) (x : string) :
  validName x = true -> Path.normStep allow stack x = x :: stack.
Proof.
  unfold validName, Path.normStep, Path.nonEmpty. intro H.
  repeat (apply andb_true_iff in H as [H ?]).
  repeat match goal with
         | Hn : negb _ = true |- _ => apply negb_true_iff in Hn; rewrite Hn
         end.
  reflexivity.
Qed.

Lemma plainSegment_normStep (allow : bool) (stack : list string) (x : string) :
  plainSegment x = true ->
  Path.normStep allow stack x = if Path.nonEmpty x then x :: stack else stack.
Proof.
  unfold plainSegment. intro H. apply orb_true_iff in H as [H | H].
  - apply String.eqb_eq in H. subst x. reflexivity.
  - rewrite (validName_nonEmpty x H). now apply validName_normStep.
Qed.

(** Normalising segments that hold no dot names keeps the non-empty ones. *)
Lemma fold_normStep_plain (allow : bool) (segs stack : list string) :
  forallb plainSegment segs = true ->
  fold_left (Path.normStep allow) segs stack
  = (rev (filter Path.nonEmpty segs) ++ stack)%list.
Proof.
  revert stack. induction segs as [|x segs IH]; intros stack H; [reflexivity|].
  simpl in H. apply andb_true_iff in H as [Hx Hs].
  simpl. rewrite (plainSegment_normStep allow stack x Hx), (IH _ Hs).
  destruct (Path.nonEmpty x); [|reflexivity].
  simpl. now rewrite <- app_assoc.
Qed.

Lemma normalizeString_plain (allow : bool) (path : string) :
  plainPath path = true ->
  Path.normalizeString path allow = Path.joinSlash (Path.components path).
Proof.
  intro H. unfold Path.normalizeString, Path.normalizeComponents.
  rewrite fold_normStep_plain by exact H.
  now rewrite app_nil_r, rev_involutive.
Qed.

Lemma plainPath_slash (a b : string) :
  plainPath (a ++ String "/" b) = (plainPath a && plainPath b)%bool.
Proof. unfold plainPath. now rewrite segments_slash, forallb_app. Qed.

Lemma components_slash (a b : string) :
  Path.components (a ++ String "/" b) = (Path.components a ++ Path.components b)%list.
Proof. unfold Path.components. now rewrite segments_slash, filter_app. Qed.

Lemma isAbsolute_absolute (names : list string) : Path.isAbsolute (absolute names) = true.
Proof. reflexivity. Qed.

Lemma absolute_not_empty (names : list string) : String.eqb (absolute names) "" = false.
Proof. reflexivity. Qed.

(** Resolving an absolute path without dot names changes nothing. *)
Lemma resolve_absolute (cwd : string) (names : list string) :
  validNames names = true -> Path.resolve cwd [absolute names] = absolute names.
Proof.
  intro H. unfold Path.resolve. simpl rev. unfold Path.resolveLoop.
  rewrite absolute_not_empty, isAbsolute_absolute. cbv beta iota zeta.
  rewrite (slash_append ""), normalizeString_plain.
  - rewrite components_slash, components_absolute by assumption.
    simpl. now rewrite app_nil_r.
  - rewrite plainPath_slash, plainPath_absolute by assumption. reflexivity.
Qed.

Lemma isAbsolute_joinSlash_valid (names : list string) :
  validNames names = true -> Path.isAbsolute (Path.joinSlash names) = false.
Proof.
  destruct names as [|x l]; [reflexivity|]. intro H.
  apply validNames_cons in H as [Hx _].
  pose proof (validName_not_empty x Hx) as Hne. apply validName_plain in Hx.
  destruct x as [|c x]; [congruence|]. simpl in Hx.
  apply orb_false_iff in Hx as [Hc _]. destruct l; simpl; exact Hc.
Qed.

Lemma plainPath_joinSlash (names : list string) :
  validNames names = true -> plainPath (Path.joinSlash names) = true.
Proof.
  intro H. destruct names as [|x l]; [reflexivity|].
  unfold plainPath. rewrite segments_joinSlash by (congruence || assumption).
  now apply plainSegment_valid.
Qed.

Lemma components_joinSlash (names : list string) :
  validNames names = true -> Path.components (Path.joinSlash names) = names.
Proof.
  intro H. destruct names as [|x l]; [reflexivity|].
  unfold Path.components. rewrite segments_joinSlash by (congruence || assumption).
  now apply filter_nonEmpty_valid.
Qed.

(** Resolving names against an absolute directory appends them. *)
Lemma resolve_under (cwd : string) (dir names : list string) :
  validNames dir = true -> validNames names = true -> names <> [] ->
  Path.resolve cwd [absolute dir; Path.joinSlash names] = absolute (dir ++ names).
Proof.
  intros Hd Hn Hne. unfold Path.resolve. simpl rev. unfold Path.resolveLoop.
  rewrite (eqb_false_of_neq _ _ (joinSlash_valid_not_empty names Hne Hn)).
  rewrite (isAbsolute_joinSlash_valid names Hn).
  rewrite absolute_not_empty, isAbsolute_absolute. cbv beta iota zeta.
  rewrite (slash_append ""), (slash_append (_ ++ _)), normalizeString_plain.
  - rewrite !components_slash, components_absolute, components_joinSlash by assumption.
    simpl. now rewrite app_nil_r.
  - rewrite !plainPath_slash, plainPath_absolute, plainPath_joinSlash by assumption.
    reflexivity.
Qed.

Lemma endsWithSlash_append (a x : string) :
  x <> "" -> Path.endsWithSlash (a ++ x) = Path.endsWithSlash x.
Proof.
  intro Hx. induction a as [|c a IH]; [reflexivity|].
  simpl. rewrite IH. destruct (a ++ x) eqn:E; [|reflexivity].
  apply append_eq_empty in E as [_ E]. contradiction.
Qed.

Lemma endsWithSlash_plain (x : string) :
  hasSlash x = false -> Path.endsWithSlash x = false.
Proof.
  induction x as [|c x IH]; [reflexivity|]. simpl. intro H.
  apply orb_false_iff in H as [Hc Hx]. destruct x; [exact Hc | now apply IH].
Qed.

Lemma endsWithSlash_joinSlash (names : list string) :
  validNames names = true -> Path.endsWithSlash (Path.joinSlash names) = false.
Proof.
  induction names as [|x l IH]; [reflexivity|]. intro H.
  apply validNames_cons in H as [Hx Hl].
  destruct l as [|y l].
  - simpl. now apply endsWithSlash_plain, validName_plain.
  - rewrite joinSlash_cons.
    change (x ++ String "/" (Path.joinSlash (y :: l)))
      with (x ++ (String "/" "" ++ Path.joinSlash (y :: l))).
    rewrite <- append_assoc, endsWithSlash_append; [now apply IH|].
    apply joinSlash_valid_not_empty; [congruence | assumption].
Qed.

(** [path.normalize] on an absolute path without dot names and without a
    trailing slash. *)
Lemma normalize_plain (path : string) :
  Path.isAbsolute path = true -> plainPath path = true ->
  Path.endsWithSlash path = false \/ Path.components path = [] ->
  Path.normalize path = absolute (Path.components path).
Proof.
  intros Habs Hplain Hend. unfold Path.normalize.
  destruct path as [|c path]; [discriminate|].
  change (String.eqb (String c path) "") with false. cbv iota.
  rewrite Habs, normalizeString_plain by assumption. simpl negb.
  destruct (Path.components (String c path)) as [|x l] eqn:E; [reflexivity|].
  destruct Hend as [Hend | Hend]; [|discriminate].
  rewrite Hend.
  destruct (String.eqb (Path.joinSlash (x :: l)) "") eqn:Ej; [|reflexivity].
  apply String.eqb_eq in Ej. unfold absolute. now rewrite Ej.
Qed.

Lemma endsWithSlash_absolute (names : list string) :
  validNames names = true -> names <> [] ->
  Path.endsWithSlash (absolute names) = false.
Proof.
  intros H Hne. unfold absolute.
  rewrite endsWithSlash_append by now apply joinSlash_valid_not_empty.
  now apply endsWithSlash_joinSlash.
Qed.

Lemma nonEmpty_joinSlash (names : list string) :
  validNames names = true -> names <> [] ->
  Path.nonEmpty (Path.joinSlash names) = true.
Proof.
  intros H Hne. unfold Path.nonEmpty.
  now rewrite (eqb_false_of_neq _ _ (joinSlash_valid_not_empty names Hne H)).
Qed.

Lemma normalize_absolute (names : list string) :
  validNames names = true -> Path.normalize (absolute names) = absolute names.
Proof.
  intro H. rewrite normalize_plain.
  - now rewrite components_absolute.
  - reflexivity.
  - now apply plainPath_absolute.
  - rewrite components_absolute by assumption.
    destruct names as [|x l]; [now right | left].
    apply endsWithSlash_absolute; [assumption | congruence].
Qed.

(** Joining names onto an absolute directory appends them. *)
Lemma join_under (dir names : list string) :
  validNames dir = true -> validNames names = true ->
  Path.join [absolute dir; Path.joinSlash names] = absolute (dir ++ names).
Proof.
  intros Hd Hn. unfold Path.join.
  change (filter Path.nonEmpty [absolute dir; Path.joinSlash names])
    with (absolute dir
          :: if Path.nonEmpty (Path.joinSlash names)
             then [Path.joinSlash names] else []).
  destruct names as [|y names].
  - change (Path.nonEmpty (Path.joinSlash [])) with false. cbv iota.
    rewrite app_nil_r. now apply normalize_absolute.
  - rewrite nonEmpty_joinSlash by (assumption || congruence).
    change (Path.joinSlash [absolute dir; Path.joinSlash (y :: names)])
      with (absolute dir ++ String "/" (Path.joinSlash (y :: names))).
    rewrite normalize_plain.
    + now rewrite components_slash, components_absolute, components_joinSlash.
    + reflexivity.
    + now rewrite plainPath_slash, plainPath_absolute, plainPath_joinSlash.
    + left.
      change (String "/" (Path.joinSlash (y :: names)))
        with (String "/" "" ++ Path.joinSlash (y :: names)).
      rewrite <- append_assoc, endsWithSlash_append.
      * now apply endsWithSlash_joinSlash.
      * apply joinSlash_valid_not_empty; [congruence | assumption].
Qed.

(** Joining one name onto an absolute directory. *)
Lemma join_name (dir : list string) (name : string) :
  validNames dir = true -> validName name = true ->
  Path.join [absolute dir; name] = absolute (dir ++ [name]).
Proof.
  intros Hd Hn. apply (join_under dir [name] Hd).
  apply validNames_cons. split; [assumption | reflexivity].
Qed.

End NormalizeFacts.

Section DirnameFacts.

Lemma dropTrailingEmpty_last (segs : list string) (x : string) :
  x <> "" -> Path.dropTrailingEmpty (segs ++ [x]) = (segs ++ [x])%list.
Proof.
  intro Hx. induction segs as [|s segs IH]; simpl.
  - now rewrite (eqb_false_of_neq x "" Hx).
  - rewrite IH. destruct (segs ++ [x])%list eqn:E; [|reflexivity].
    now destruct segs.
Qed.

Lemma joinSlash_root (names : list string) :
  names <> [] -> Path.joinSlash ("" :: names) = absolute names.
Proof. destruct names; [congruence | reflexivity]. Qed.

Lemma absolute_not_root (names : list string) :
  validNames names = true -> names <> [] -> String.eqb (absolute names) "/" = false.
Proof.
  intros H Hne. apply eqb_false_of_neq. unfold absolute. intro E.
  injection E as E. now apply (joinSlash_valid_not_empty names).
Qed.

(** The parent of an absolute path is the path without its last name. *)
Lemma dirname_absolute (dir : list string) (name : string) :
  validNames dir = true -> validName name = true ->
  Path.dirname (absolute (dir ++ [name])) = absolute dir.
Proof.
  intros Hd Hn. unfold Path.dirname.
  rewrite absolute_not_empty, isAbsolute_absolute.
  assert (Hall : validNames (dir ++ [name]) = true).
  { apply validNames_app. split; [assumption|].
    apply validNames_cons. now split. }
  rewrite segments_absolute by assumption.
  destruct (dir ++ [name])%list as [|z l] eqn:E; [now destruct dir|].
  rewrite <- E.
  change ("" :: (dir ++ [name]))%list with (("" :: dir) ++ [name])%list.
  rewrite dropTrailingEmpty_last by now apply validName_not_empty.
  rewrite removelast_last.
  destruct dir as [|d dir]; [reflexivity|].
  rewrite joinSlash_root by congruence.
  rewrite (eqb_false_of_neq (absolute (d :: dir)) "") by discriminate.
  rewrite absolute_not_root by (assumption || congruence).
  reflexivity.
Qed.

Lemma dirname_root : Path.dirname (absolute []) = absolute [].
Proof. reflexivity. Qed.

(** [path.dirname] never returns the empty string. *)
Lemma dirname_not_empty (path : string) : Path.dirname path <> "".
Proof.
  unfold Path.dirname.
  destruct (String.eqb path ""); [discriminate|].
  destruct (String.eqb _ "") eqn:E.
  - destruct (Path.isAbsolute path); discriminate.
  - apply String.eqb_neq in E.
    destruct (Path.isAbsolute path && _)%bool; [discriminate | exact E].
Qed.

Lemma last_app_one (l : list string) (x d : string) : last (l ++ [x]) d = x.
Proof.
  induction l as [|y l IH]; [reflexivity|].
  simpl. rewrite IH. now destruct l.
Qed.

Lemma lastComponent_absolute (dir : list string) (name : string) :
  validNames dir = true -> validName name = true ->
  Path.lastComponent (absolute (dir ++ [name])) = name.
Proof.
  intros Hd Hn. unfold Path.lastComponent.
  rewrite components_absolute.
  - apply last_app_one.
  - apply validNames_app. split; [assumption|].
    apply validNames_cons. now split.
Qed.

Lemma lastComponent_plain (name : string) :
  validName name = true -> Path.lastComponent name = name.
Proof.
  intro H. unfold Path.lastComponent, Path.components.
  rewrite segments_plain by now apply validName_plain.
  simpl. now rewrite (validName_nonEmpty name H).
Qed.

(** The extension of a path is the extension of its last name. *)
Lemma extname_absolute (dir : list string) (name : string) :
  validNames dir = true -> validName name = true ->
  Path.extname (absolute (dir ++ [name])) = Path.extname name.
Proof.
  intros Hd Hn. unfold Path.extname.
  now rewrite lastComponent_absolute, lastComponent_plain.
Qed.

End DirnameFacts.

Section RelativeFacts.

Lemma stripCommon_app (dir names : list string) :
  Path.stripCommon dir (dir ++ names) = ([], names).
Proof.
  induction dir as [|d dir IH]; simpl.
  - now destruct names.
  - now rewrite String.eqb_refl.
Qed.

(** The position of a path relative to a directory above it is the names
    in between. *)
Lemma relative_under (cwd : string) (dir names : list string) :
  validNames dir = true -> validNames names = true ->
  Path.relative cwd (absolute dir) (absolute (dir ++ names)) = Path.joinSlash names.
Proof.
  intros Hd Hn.
  assert (Hall : validNames (dir ++ names) = true) by now apply validNames_app.
  assert (Heq : absolute dir = absolute (dir ++ names) -> names = []).
  { intro E. apply absolute_inj in E; try assumption.
    rewrite <- (app_nil_r dir) in E at 1. now apply app_inv_head in E. }
  unfold Path.relative.
  destruct (String.eqb (absolute dir) (absolute (dir ++ names))) eqn:E1.
  - apply String.eqb_eq in E1. now rewrite (Heq E1).
  - rewrite !resolve_absolute, E1 by assumption.
    rewrite !components_absolute, stripCommon_app by assumption.
    reflexivity.
Qed.

End RelativeFacts.

Section ExtensionFacts.

Lemma lastDotSplit_spec (s pre suf : string) :
  Path.lastDotSplit s = Some (pre, suf) ->
  s = pre ++ suf /\ exists t, suf = String "." t.
Proof.
  revert pre suf. induction s as [|c s IH]; intros pre suf H; [discriminate|].
  simpl in H. destruct (Path.lastDotSplit s) as [[p' s']|].
  - injection H as <- <-. destruct (IH p' s' eq_refl) as [E Hdot].
    split; [simpl; now rewrite <- E | exact Hdot].
  - destruct (Ascii.eqb c ".") eqn:Ec; [|discriminate].
    injection H as <- <-. apply Ascii.eqb_eq in Ec. subst c.
    split; [reflexivity | now exists s].
Qed.

Lemma stripSuffix_append (pre suf : string) :
  Path.stripSuffix suf (pre ++ suf) = Some pre.
Proof.
  induction pre as [|c pre IH].
  - destruct suf; simpl; now rewrite ?String.eqb_refl, ?Ascii.eqb_refl.
  - assert (Hne : String.eqb (String c pre ++ suf) suf = false).
    { apply eqb_false_of_neq. intro E.
      apply (f_equal String.length) in E.
      rewrite length_append in E. simpl in E. lia. }
    change (Path.stripSuffix suf (String c pre ++ suf))
      with (if String.eqb (String c pre ++ suf) suf then Some ""
            else option_map (String c) (Path.stripSuffix suf (pre ++ suf))).
    now rewrite Hne, IH.
Qed.

(** The extension is a suffix of the last name; when it is not empty it
    starts at a dot that is not the name's first character. *)
Lemma extname_spec (path : string) :
  exists stem,
    Path.lastComponent path = stem ++ Path.extname path
    /\ (Path.extname path = ""
        \/ (stem <> "" /\ exists t, Path.extname path = String "." t)).
Proof.
  unfold Path.extname.
  destruct (Path.lastDotSplit (Path.lastComponent path)) as [[pre suf]|] eqn:E.
  - destruct (lastDotSplit_spec _ _ _ E) as [Hb Hdot].
    destruct (String.eqb pre "" || String.eqb (Path.lastComponent path) "..")%bool eqn:Eg.
    + exists (Path.lastComponent path). split; [now rewrite append_empty_r | now left].
    + apply orb_false_iff in Eg as [Eg _]. apply String.eqb_neq in Eg.
      exists pre. split; [exact Hb | right; now split].
  - exists (Path.lastComponent path). split; [now rewrite append_empty_r | now left].
Qed.

Lemma length_absolute_last (dir : list string) (name : string) :
  String.length name <= String.length (absolute (dir ++ [name])).
Proof.
  rewrite absolute_app by discriminate. rewrite length_append.
  change (Path.joinSlash [name]) with name.
  change (String.length (String "/" name)) with (S (String.length name)). lia.
Qed.

(** [path.basename(p, path.extname(p))] followed by [path.extname(p)] is
    the last name of [p]. *)
Lemma basename_extname (dir : list string) (name : string) :
  validNames dir = true -> validName name = true ->
  Path.basename (absolute (dir ++ [name])) (Some (Path.extname name))
  ++ Path.extname name = name.
Proof.
  intros Hd Hn.
  pose proof (lastComponent_absolute dir name Hd Hn) as Hlast.
  destruct (extname_spec name) as [stem [Hb Hext]].
  rewrite (lastComponent_plain name Hn) in Hb.
  unfold Path.basename. rewrite Hlast.
  destruct Hext as [He | [Hstem [t He]]].
  - rewrite He. simpl. now rewrite append_empty_r.
  - rewrite He in *.
    change (String.eqb (String "." t) "") with false.
    assert (Hlen : Nat.ltb (String.length (absolute (dir ++ [name])))
                           (String.length (String "." t)) = false).
    { apply Nat.ltb_ge.
      pose proof (length_absolute_last dir name) as Hl.
      apply (f_equal String.length) in Hb. rewrite length_append in Hb. lia. }
    rewrite Hlen. simpl orb. cbv iota.
    assert (Hp : String.eqb (String "." t) (absolute (dir ++ [name])) = false)
      by reflexivity.
    rewrite Hp. rewrite Hb at 1. rewrite stripSuffix_append.
    rewrite (eqb_false_of_neq stem "" Hstem). now rewrite <- Hb.
Qed.

End ExtensionFacts.

Section ResolveFacts.

Lemma segments_noSlash (s : string) :
  forallb (fun x => negb (hasSlash x)) (Path.segments s) = true.
Proof.
  induction s as [|c s IH]; [reflexivity|]. simpl.
  destruct (Path.isSlash c) eqn:Ec; [exact IH|].
  pose proof (segments_not_nil s) as Hn.
  destruct (Path.segments s) as [|seg segs]; [contradiction|].
  simpl in *. now rewrite Ec.
Qed.

Lemma normStep_valid (stack : list string) (seg : string) :
  validNames stack = true -> hasSlash seg = false ->
  validNames (Path.normStep false stack seg) = true.
Proof.
  intros Hs Hseg. unfold Path.normStep.
  destruct (String.eqb seg "") eqn:E0; [exact Hs|].
  destruct (String.eqb seg ".") eqn:E1; [exact Hs|].
  destruct (String.eqb seg "..") eqn:E2.
  - destruct stack as [|top rest]; [reflexivity|].
    destruct (String.eqb top ".."); [exact Hs|].
    now apply validNames_cons in Hs as [_ Hr].
  - simpl. apply validNames_cons. split; [|exact Hs].
    unfold validName, Path.nonEmpty. now rewrite E0, E1, E2, Hseg.
Qed.

Lemma fold_normStep_valid (segs stack : list string) :
  validNames stack = true ->
  forallb (fun x => negb (hasSlash x)) segs = true ->
  validNames (fold_left (Path.normStep false) segs stack) = true.
Proof.
  revert stack. induction segs as [|x segs IH]; intros stack Hs H; [exact Hs|].
  simpl in H. apply andb_true_iff in H as [Hx Hrest].
  simpl. apply IH; [|exact Hrest].
  apply normStep_valid; [exact Hs | now apply negb_true_iff].
Qed.

Lemma validNames_rev (l : list string) : validNames (rev l) = validNames l.
Proof.
  unfold validNames. induction l as [|x l IH]; [reflexivity|].
  simpl. rewrite forallb_app, IH. simpl. now rewrite andb_true_r, andb_comm.
Qed.

Lemma resolveLoop_absolute (cwd : string) (rargs : list string) (acc : string) :
  Path.isAbsolute cwd = true -> snd (Path.resolveLoop rargs cwd acc) = true.
Proof.
  intro Hc. revert acc. induction rargs as [|p rest IH]; intro acc; simpl.
  - destruct cwd; [discriminate | exact Hc].
  - destruct (String.eqb p ""); [apply IH|].
    destruct (Path.isAbsolute p); [reflexivity | apply IH].
Qed.

(** In a process whose working directory is absolute, [path.resolve]
    returns an absolute path made of valid names. *)
Lemma resolve_form (cwd : string) (args : list string) :
  Path.isAbsolute cwd = true ->
  exists names, validNames names = true /\ Path.resolve cwd args = absolute names.
Proof.
  intro Hc. unfold Path.resolve.
  pose proof (resolveLoop_absolute cwd (rev args) "" Hc) as Habs.
  destruct (Path.resolveLoop (rev args) cwd "") as [rp ra]. simpl in Habs. subst ra.
  exists (Path.normalizeComponents false (Path.segments rp)). split; [|reflexivity].
  unfold Path.normalizeComponents. rewrite validNames_rev.
  apply fold_normStep_valid; [reflexivity | apply segments_noSlash].
Qed.

(** [path.resolve] never returns the empty string. *)
Lemma resolve_not_empty (cwd : string) (args : list string) :
  Path.resolve cwd args <> "".
Proof.
  unfold Path.resolve.
  destruct (Path.resolveLoop (rev args) cwd "") as [rp ra].
  destruct ra; [discriminate|].
  destruct (String.eqb _ "") eqn:E; [discriminate | now apply String.eqb_neq].
Qed.

End ResolveFacts.

(* ================================================================== *)
(** * Crop geometry *)
(* ================================================================== *)

Section CropGeometry.

Lemma half_within (a : Z) : (0 <= a -> 0 <= a / 2 <= a)%Z.
Proof.
  intro H. pose proof (Z.div_mod a 2) as Hd.
  pose proof (Z.mod_pos_bound a 2). lia.
Qed.

Lemma max0_half_within (a : Z) : (0 <= a -> 0 <= Z.max 0 (a / 2) <= a)%Z.
Proof. intro H. pose proof (half_within a H). lia. Qed.

(** Whatever the position, a cut no larger than the image starts inside
    it and leaves room for its own size. *)
Lemma coordinates_fit (position : value) (imgWidth imgHeight cropWidth cropHeight : Z) :
  (cropWidth <= imgWidth)%Z -> (cropHeight <= imgHeight)%Z ->
  let c := calculateCropCoordinates imgWidth imgHeight cropWidth cropHeight position in
  (0 <= fst c <= imgWidth - cropWidth)%Z /\ (0 <= snd c <= imgHeight - cropHeight)%Z.
Proof.
  intros Hw Hh.
  pose proof (max0_half_within (imgWidth - cropWidth)) as Hl.
  pose proof (max0_half_within (imgHeight - cropHeight)) as Ht.
  unfold calculateCropCoordinates. cbv zeta.
  repeat match goal with
         | |- context [if ?b then _ else _] => destruct b
         end; simpl; lia.
Qed.

(** C9: for every anchor position and every crop size that is positive
    and no larger than the image on either axis,
    [calculateCropCoordinates] returns [left] and [top] with
    [0 <= left <= imgWidth - cropWidth] and
    [0 <= top <= imgHeight - cropHeight], so the rectangle
    [(left, top, cropWidth, cropHeight)] lies inside the image. *)
Theorem crop_coordinates_within_image :
  forall (position : value) (imgWidth imgHeight cropWidth cropHeight : Z),
    (0 < cropWidth <= imgWidth)%Z ->
    (0 < cropHeight <= imgHeight)%Z ->
    let c := calculateCropCoordinates imgWidth imgHeight cropWidth cropHeight position in
    (0 <= fst c <= imgWidth - cropWidth)%Z
    /\ (0 <= snd c <= imgHeight - cropHeight)%Z
    /\ (fst c + cropWidth <= imgWidth)%Z
    /\ (snd c + cropHeight <= imgHeight)%Z.
Proof.
  intros position iw ih cw ch Hw Hh c.
  destruct (coordinates_fit position iw ih cw ch) as [Hl Ht]; [lia | lia |].
  fold c in Hl, Ht. lia.
Qed.

Lemma crop_coordinates_within_image_witness :
  let c := calculateCropCoordinates 400 300 200 100 (Str "bottom-right") in
  (0 <= fst c <= 400 - 200)%Z /\ (0 <= snd c <= 300 - 100)%Z
  /\ (fst c + 200 <= 400)%Z /\ (snd c + 100 <= 300)%Z.
Proof.
  apply (crop_coordinates_within_image (Str "bottom-right") 400 300 200 100); lia.
Defined.

(** X1: every cut the extract-based [cropImage] asks the library for lies
    inside the image the library measured; anything else ends in a thrown
    error and no call. *)
Lemma cropImage_extract_requests (host : Host) (root : node)
  (inputPath outputPath : string) (options : Options) :
  (exists message,
     cropImage_extract host root inputPath outputPath options = (root, Throw message))
  \/ (exists imgWidth imgHeight cropLeft cropTop cropWidth cropHeight,
        metadata host root inputPath = Ok (imgWidth, imgHeight)
        /\ cropImage_extract host root inputPath outputPath options
           = toFile host root inputPath
               [Extract cropLeft cropTop cropWidth cropHeight] outputPath
        /\ (0 <= cropLeft)%Z /\ (cropLeft + sizeNumber cropWidth <= imgWidth)%Z
        /\ (0 <= cropTop)%Z /\ (cropTop + sizeNumber cropHeight <= imgHeight)%Z).
Proof.
  unfold cropImage_extract.
  destruct (_ && _)%bool; [left; eauto|].
  destruct (positionOrDefault options); try (left; eauto; fail).
  destruct (negb _); [left; eauto|].
  destruct (metadata host root inputPath) as [[iw ih]|m] eqn:Em; [|left; eauto].
  destruct (parseDimension (width options) iw) as [pw|m]; [|left; eauto].
  destruct (parseDimension (height options) ih) as [ph|m]; [|left; eauto].
  destruct (completeSizes host iw ih pw ph) as [cw ch].
  destruct (sizeNumber cw >? iw)%Z eqn:Ew; [left; eauto|].
  destruct (sizeNumber ch >? ih)%Z eqn:Eh; [left; eauto|].
  right.
  destruct (coordinates_fit (property POSITION_MAP (toLowerCase s)) iw ih
              (sizeNumber cw) (sizeNumber ch)) as [Hl Ht]; [lia | lia |].
  destruct (calculateCropCoordinates iw ih (sizeNumber cw) (sizeNumber ch) _)
    as [l t].
  simpl in Hl, Ht. exists iw, ih, l, t, cw, ch.
  repeat split; try reflexivity; lia.
Qed.

End CropGeometry.

(* ================================================================== *)
(** * The batch *)
(* ================================================================== *)

Section BatchSteps.

Variable host : Host.
Variable cwd : string.
Variables (inputs : list string) (outputInfo : OutputInfo).
Variables (processFunc : processor) (options : Options).

(** What the [try] block does for one file, from outside. *)
Lemma processFile_processed (root root' : node) (inputFile : string) (r : result unit) :
  processFile host cwd inputs outputInfo processFunc options root inputFile = (root', r) ->
  processed host cwd inputs outputInfo processFunc options
    {| attempt_file := inputFile; attempt_before := root;
       attempt_after := root'; attempt_outcome := r |}.
Proof.
  unfold processFile, processed. cbn [attempt_file attempt_before attempt_after
                                        attempt_outcome].
  destruct (getOutputFilePath _ _ _ _ _ _ _) as [outputPath|m].
  - destruct (ensureDirectoryExists _ _) as [made|m].
    + trivial.
    + intro E. injection E as <- <-. now split.
  - intro E. injection E as <- <-. now split.
Qed.

(** The loop is a chain of attempts, one per file in the order of the
    list, and adds to the counters it starts from one success per attempt
    that returned and one failure, with its pair, per attempt that threw. *)
Lemma processLoop_steps (files : list string) :
  forall (root : node) (results : BatchResult),
    let end_ := processLoop host cwd inputs outputInfo processFunc options
                  root files results in
    exists steps : list Attempt,
      map attempt_file steps = files
      /\ chained root steps (fst end_)
      /\ Forall (processed host cwd inputs outputInfo processFunc options) steps
      /\ total (snd end_) = total results
      /\ successful (snd end_)
         = successful results
           + List.length (filter (fun a => negb (attempt_failed a)) steps)
      /\ failed (snd end_) = failed results + List.length (recorded steps)
      /\ errors (snd end_) = (errors results ++ recorded steps)%list.
Proof.
  induction files as [|inputFile rest IH]; intros root results.
  - exists []. simpl. rewrite app_nil_r. repeat split; try lia. constructor.
  - cbn [processLoop].
    destruct (processFile host cwd inputs outputInfo processFunc options root inputFile)
      as [root' r] eqn:Efile.
    pose proof (processFile_processed _ _ _ _ Efile) as Hstep.
    destruct r as [u|message].
    + destruct (IH root'
        {| total := total results; successful := S (successful results);
           failed := failed results; errors := errors results |})
        as (steps & Hfiles & Hchain & Hall & Ht & Hs & Hf & He).
      cbn [total successful failed errors] in Ht, Hs, Hf, He.
      exists ({| attempt_file := inputFile; attempt_before := root;
                 attempt_after := root'; attempt_outcome := Ok u |} :: steps).
      cbn [map chained filter recorded attempt_file attempt_before attempt_after
             attempt_outcome attempt_failed isThrow negb List.length].
      rewrite Hfiles.
      split; [reflexivity|]. split; [now split|]. split; [now constructor|].
      split; [assumption|]. split; [lia|]. split; [lia | assumption].
    + destruct (IH root'
        {| total := total results; successful := successful results;
           failed := S (failed results);
           errors := (errors results ++ [(Path.basename inputFile None, message)])%list |})
        as (steps & Hfiles & Hchain & Hall & Ht & Hs & Hf & He).
      cbn [total successful failed errors] in Ht, Hs, Hf, He.
      exists ({| attempt_file := inputFile; attempt_before := root;
                 attempt_after := root'; attempt_outcome := Throw message |} :: steps).
      cbn [map chained filter recorded attempt_file attempt_before attempt_after
             attempt_outcome attempt_failed isThrow negb List.length].
      rewrite Hfiles.
      split; [reflexivity|]. split; [now split|]. split; [now constructor|].
      split; [assumption|]. split; [lia|]. split; [lia|].
      rewrite He, <- app_assoc. reflexivity.
Qed.

Lemma recorded_partition (steps : list Attempt) :
  List.length (filter (fun a => negb (attempt_failed a)) steps)
  + List.length (recorded steps)
  = List.length steps.
Proof.
  induction steps as [|[f before after [u|m]] steps IH]; simpl in *;
    [reflexivity | lia | lia].
Qed.

End BatchSteps.

(** C4: [processImages] processes every file once, in the order given, one
    after the other, and a failure never stops the files after it: its run
    is a chain of attempts, one per file in list order, each starting on the
    file system the one before left, in each of which the output path is
    computed, its directory ensured and [processFunc] called, the attempt
    ending as [processFunc] did (or with the error of the path or the
    directory).  The result it returns has [total] equal to the number of
    files, [successful + failed = total], [successful] the number of
    attempts that returned, and [errors] holding exactly one (file name,
    message) pair per attempt that threw, in processing order. *)
Theorem processImages_batch_result :
  forall (host : Host) (cwd : string) (inputs : list string) (outputInfo : OutputInfo)
         (processFunc : processor) (options : Options)
         (root : node) (files : list string),
    let end_ := processImages host cwd inputs outputInfo processFunc options root files in
    let results := snd end_ in
    exists steps : list Attempt,
      map attempt_file steps = files
      /\ chained root steps (fst end_)
      /\ Forall (processed host cwd inputs outputInfo processFunc options) steps
      /\ total results = List.length files
      /\ successful results + failed results = total results
      /\ successful results
         = List.length (filter (fun a => negb (attempt_failed a)) steps)
      /\ failed results = List.length (errors results)
      /\ errors results = recorded steps.
Proof.
  intros host cwd inputs outputInfo processFunc options root files end_ results.
  subst results end_. unfold processImages.
  destruct files as [|f rest].
  - exists []. simpl. repeat split; constructor.
  - change (Nat.eqb (List.length (f :: rest)) 0) with false. cbv iota.
    destruct (processLoop_steps host cwd inputs outputInfo processFunc options
                (f :: rest) root
                {| total := List.length (f :: rest); successful := 0; failed := 0;
                   errors := [] |})
      as (steps & Hfiles & Hchain & Hall & Ht & Hs & Hf & He).
    set (final := processLoop _ _ _ _ _ _ root (f :: rest) _) in *.
    cbn [total successful failed errors] in Ht, Hs, Hf, He.
    rewrite app_nil_l in He.
    pose proof (recorded_partition steps) as Hpart.
    pose proof (f_equal (@List.length string) Hfiles) as Hlen.
    rewrite length_map in Hlen.
    exists steps. rewrite He.
    repeat split; try assumption; lia.
Qed.

(* ================================================================== *)
(** * Exit status and command-wide validation *)
(* ================================================================== *)

Section ExitStatus.

(** The exit status of [convert] is decided before the batch runs: it is
    1 when no image was found or the output target or the extension could
    not be computed, and 0 otherwise, whatever the batch returns. *)
Lemma convertAction_status (host : Host) (cwd : string) (root : node)
  (files : list string) (flags : Flags) :
  status (convertAction host cwd root files flags)
  = if (Nat.eqb (List.length (fst (findImages cwd root files))) 0
        || isThrow (resolveOutputPath cwd root files (or_else (flag_out flags) Null))
        || isThrow (getExtensionForFormat (flag_to flags)))%bool
    then 1%Z else 0%Z.
Proof.
  unfold convertAction.
  destruct (Nat.eqb _ 0); [reflexivity|].
  destruct (resolveOutputPath _ _ _ _); [|reflexivity].
  destruct (getExtensionForFormat _); reflexivity.
Qed.

(** C1, on the code: [convert photos --to bmp] finds three images, every
    one of them fails with "Unsupported format", and the process still
    ends with exit status 0. *)
Theorem convert_exit_status_after_failures :
  let outcome := convertAction plainHost "/p" sampleDisk ["photos"] convertToBmp in
  status outcome = 0%Z
  /\ option_map total (summary outcome) = Some 3
  /\ option_map successful (summary outcome) = Some 0
  /\ option_map failed (summary outcome) = Some 3.
Proof. vm_compute. repeat split; reflexivity. Qed.

(** A batch without a failure ends with the same status. *)
Lemma convert_exit_status_after_success :
  let outcome := convertAction plainHost "/p" sampleDisk ["photos"] convertToWebp in
  status outcome = 0%Z
  /\ option_map successful (summary outcome) = Some 3
  /\ option_map failed (summary outcome) = Some 0.
Proof. vm_compute. repeat split; reflexivity. Qed.

(** No image found: exit status 1. *)
Lemma convert_exit_status_no_image :
  status (convertAction plainHost "/p" sampleDisk ["nowhere"] convertToWebp) = 1%Z.
Proof. reflexivity. Qed.

(** C2, on the code: [optimize photos2 --quality 80 --lossless] passes the
    command's own check, creates the output directory
    [/p/photos2-imgwork], attempts the file, which fails with "Cannot use
    both --quality and --lossless", and ends with exit status 0. *)
Theorem optimize_both_flags_reaches_files :
  let outcome := optimizeAction plainHost "/p" sampleDisk ["photos2"] optimizeBoth in
  existsSync sampleDisk "/p/photos2-imgwork" = false
  /\ existsSync (disk outcome) "/p/photos2-imgwork" = true
  /\ summary outcome
     = Some {| total := 1; successful := 0; failed := 1;
               errors := [("x.jpg", bothQualityAndLossless)] |}
  /\ status outcome = 0%Z.
Proof. vm_compute. repeat split; reflexivity. Qed.

(** With both options set [optimizeImage] throws before it reads the
    input or calls the library. *)
Lemma optimizeImage_both (host : Host) (root : node) (inputPath outputPath : string)
  (options : Options) :
  truthy (quality options) = true -> truthy (lossless options) = true ->
  optimizeImage host root inputPath outputPath options
  = (root, Throw bothQualityAndLossless).
Proof.
  intros Hq Hl. unfold optimizeImage. now rewrite Hq, Hl.
Qed.

(** With both options set the command goes on to the batch whenever an
    image is found and the output target resolves, and ends with exit
    status 0. *)
Lemma optimizeAction_both_runs_batch (host : Host) (cwd : string) (root : node)
  (files : list string) (flags : Flags) (outputInfo : OutputInfo) :
  truthy (flag_quality flags) = true -> truthy (flag_lossless flags) = true ->
  fst (findImages cwd root files) <> [] ->
  resolveOutputPath cwd root files (or_else (flag_out flags) Null) = Ok outputInfo ->
  let outcome := optimizeAction host cwd root files flags in
  status outcome = 0%Z /\ exists results, summary outcome = Some results.
Proof.
  intros Hq Hl Hfound Hout. unfold optimizeAction.
  rewrite Hq, Hout. simpl negb. simpl andb. cbv iota.
  destruct (fst (findImages cwd root files)) as [|f rest]; [congruence|].
  simpl. split; [reflexivity | eauto].
Qed.

(** The exit status of the [crop] action, once commander has called it,
    and of [optimize] is fixed before the batch runs, like that of
    [convert]. *)
Lemma cropAction_status (host : Host) (cwd : string) (cropImage : processor)
  (root : node) (files : list string) (flags : Flags) :
  status (cropAction host cwd cropImage root files flags)
  = if (Nat.eqb (List.length (fst (findImages cwd root files))) 0
        || isThrow (resolveOutputPath cwd root files (or_else (flag_out flags) Null)))%bool
    then 1%Z else 0%Z.
Proof.
  unfold cropAction.
  destruct (Nat.eqb _ 0); [reflexivity|].
  destruct (resolveOutputPath _ _ _ _); reflexivity.
Qed.

Lemma optimizeAction_status (host : Host) (cwd : string) (root : node)
  (files : list string) (flags : Flags) :
  status (optimizeAction host cwd root files flags)
  = if ((negb (truthy (flag_quality flags)) && negb (truthy (flag_lossless flags)))
        || Nat.eqb (List.length (fst (findImages cwd root files))) 0
        || isThrow (resolveOutputPath cwd root files (or_else (flag_out flags) Null)))%bool
    then 1%Z else 0%Z.
Proof.
  unfold optimizeAction.
  destruct (negb _ && negb _)%bool; [reflexivity|].
  destruct (Nat.eqb _ 0); [reflexivity|].
  destruct (resolveOutputPath _ _ _ _); reflexivity.
Qed.

(** With neither option the command stops before discovery. *)
Lemma optimize_neither_flag_stops (host : Host) (cwd : string) (root : node)
  (files : list string) (flags : Flags) :
  truthy (flag_quality flags) = false -> truthy (flag_lossless flags) = false ->
  optimizeAction host cwd root files flags = exit1 root.
Proof.
  intros Hq Hl. unfold optimizeAction. now rewrite Hq, Hl.
Qed.

End ExitStatus.

(* ================================================================== *)
(** * Crop sizes against the image *)
(* ================================================================== *)

Section CropBounds.

(** C3 as stated fails on the resize-based [cropImage]: asked for 800x600
    from a 400x300 image it throws nothing and has the library resize to
    800x600 with cover fit. *)
Lemma crop_resize_accepts_oversize :
  let input := "/p/photos2/x.jpg" in
  let output := "/p/x-imgwork.jpg" in
  metadata plainHost sampleDisk input = Ok (400%Z, 300%Z)
  /\ parseInt (width crop800x600) = Some 800%Z
  /\ parseInt (height crop800x600) = Some 600%Z
  /\ cropImage_resize plainHost sampleDisk input output crop800x600
     = toFile plainHost sampleDisk input
         [Resize (Some 800%Z) (Some 600%Z) (Some Cover) (Str "centre")] output
  /\ isThrow (snd (cropImage_resize plainHost sampleDisk input output crop800x600))
     = false.
Proof. vm_compute. repeat split; reflexivity. Qed.

(** C3, amended: in the extract-based [cropImage], once a size is given,
    the position is valid, the metadata is read and the sizes parse, a
    requested or derived crop width above the image's width, or crop
    height above its height, makes [cropImage] throw the bounds error for
    that file, the file system untouched and the library not called. *)
Theorem crop_extract_refuses_oversize :
  forall (host : Host) (root : node) (inputPath outputPath : string)
         (options : Options) (position : string)
         (imgWidth imgHeight : Z) (parsedWidth parsedHeight : size),
    (truthy (width options) || truthy (height options))%bool = true ->
    positionOrDefault options = Str position ->
    truthy (property POSITION_MAP (toLowerCase position)) = true ->
    metadata host root inputPath = Ok (imgWidth, imgHeight) ->
    parseDimension (width options) imgWidth = Ok parsedWidth ->
    parseDimension (height options) imgHeight = Ok parsedHeight ->
    let sizes := completeSizes host imgWidth imgHeight parsedWidth parsedHeight in
    (sizeNumber (fst sizes) > imgWidth \/ sizeNumber (snd sizes) > imgHeight)%Z ->
    cropImage_extract host root inputPath outputPath options
    = (root, Throw (cropWidthExceeds (fst sizes) imgWidth))
    \/ cropImage_extract host root inputPath outputPath options
       = (root, Throw (cropHeightExceeds (snd sizes) imgHeight)).
Proof.
  intros host root inputPath outputPath options position iw ih pw ph
         Hsize Hpos Hvalid Hmeta Hw Hh sizes Hover.
  unfold cropImage_extract.
  apply orb_true_iff in Hsize.
  assert (Hnone : (negb (truthy (width options)) && negb (truthy (height options)))%bool
                  = false).
  { destruct Hsize as [-> | ->]; [reflexivity | apply andb_false_r]. }
  rewrite Hnone, Hpos, Hvalid, Hmeta, Hw, Hh. cbv iota beta. simpl negb. cbv iota.
  fold sizes. destruct sizes as [cw ch]. simpl fst in *. simpl snd in *.
  destruct (sizeNumber cw >? iw)%Z eqn:Ew; [now left|].
  destruct (sizeNumber ch >? ih)%Z eqn:Eh; [now right|].
  exfalso. rewrite Z.gtb_ltb in Ew, Eh. apply Z.ltb_ge in Ew, Eh. lia.
Qed.

Lemma crop_extract_refuses_oversize_witness :
  cropImage_extract plainHost sampleDisk "/p/photos2/x.jpg" "/p/photos2-imgwork/x.jpg"
    crop800x600
  = (sampleDisk, Throw "Crop width (800) exceeds image width (400)")
  \/ cropImage_extract plainHost sampleDisk "/p/photos2/x.jpg" "/p/photos2-imgwork/x.jpg"
       crop800x600
     = (sampleDisk, Throw "Crop height (600) exceeds image height (300)").
Proof.
  apply (crop_extract_refuses_oversize plainHost sampleDisk "/p/photos2/x.jpg"
           "/p/photos2-imgwork/x.jpg" crop800x600 "center" 400 300
           (Some 800%Z) (Some 600%Z));
    try reflexivity.
  left. reflexivity.
Defined.

End CropBounds.

(* ================================================================== *)
(** * The output target *)
(* ================================================================== *)

Section OutputTarget.

Lemma isAbsolute_not_empty (p : string) :
  Path.isAbsolute p = true -> String.eqb p "" = false.
Proof. destruct p; [discriminate | reflexivity]. Qed.

(** Resolving an absolute path does not look at the working directory. *)
Lemma resolve_absolute_arg (cwd cwd' p : string) :
  Path.isAbsolute p = true -> Path.resolve cwd [p] = Path.resolve cwd' [p].
Proof.
  intro H. unfold Path.resolve. simpl rev. unfold Path.resolveLoop.
  now rewrite (isAbsolute_not_empty p H), H.
Qed.

Lemma isAbsolute_resolve_arg (cwd p : string) :
  Path.isAbsolute p = true -> Path.isAbsolute (Path.resolve cwd [p]) = true.
Proof.
  intro H. unfold Path.resolve. simpl rev. unfold Path.resolveLoop.
  now rewrite (isAbsolute_not_empty p H), H.
Qed.

(** Nor does resolving a relative path against an absolute directory. *)
Lemma resolve_against_absolute (cwd cwd' dir rel : string) :
  Path.isAbsolute dir = true -> Path.isAbsolute rel = false ->
  Path.resolve cwd [dir; rel] = Path.resolve cwd' [dir; rel].
Proof.
  intros Hd Hr. unfold Path.resolve. simpl rev. unfold Path.resolveLoop.
  rewrite Hr, (isAbsolute_not_empty dir Hd), Hd.
  now destruct (String.eqb rel "").
Qed.

Lemma joinSlash_root_absolute (l : list string) :
  l <> [] -> Path.isAbsolute (Path.joinSlash ("" :: l)) = true.
Proof. destruct l; [congruence | reflexivity]. Qed.

(** The parent of an absolute path is absolute. *)
Lemma dirname_isAbsolute (p : string) :
  Path.isAbsolute p = true -> Path.isAbsolute (Path.dirname p) = true.
Proof.
  intro H. unfold Path.dirname. rewrite (isAbsolute_not_empty p H), H.
  destruct p as [|c p]; [discriminate|]. simpl in H.
  simpl Path.segments. rewrite H.
  change (Path.dropTrailingEmpty ("" :: Path.segments p))
    with (match Path.dropTrailingEmpty (Path.segments p) with
          | [] => []
          | rest' => "" :: rest'
          end).
  destruct (Path.dropTrailingEmpty (Path.segments p)) as [|y r]; [reflexivity|].
  change (removelast ("" :: y :: r)) with ("" :: removelast (y :: r)).
  destruct (removelast (y :: r)) as [|z l]; [reflexivity|].
  remember (Path.joinSlash ("" :: z :: l)) as d eqn:Ed.
  assert (Hd : Path.isAbsolute d = true) by (subst d; reflexivity).
  destruct (String.eqb d ""); [reflexivity|].
  destruct (true && String.eqb d "/")%bool; [reflexivity | exact Hd].
Qed.

Lemma dotted_not_absolute (out : string) :
  (startsWith out "./" || startsWith out "../")%bool = true ->
  Path.isAbsolute out = false.
Proof.
  unfold startsWith. destruct out as [|c out]; [reflexivity|].
  intro H. apply orb_true_iff in H as [H | H];
    apply prefix_head in H; now subst c.
Qed.

Lemma truthy_Str (s : string) : s <> "" -> truthy (Str s) = true.
Proof. intro H. simpl. now rewrite (eqb_false_of_neq s "" H). Qed.

(** C7: with an explicit, non-empty output path, [resolveOutputPath]
    returns a directory tree (never a single file) whatever the inputs
    are, whatever is on disk; a path that begins with [./] or [../] is
    resolved against the parent directory of the first input, and for an
    absolute first input the result does not depend on the working
    directory at all. *)
Theorem explicit_output_is_directory_tree :
  forall (cwd : string) (root : node) (inputs : list string) (out : string),
    out <> "" ->
    (* not written relative to the current directory *)
    ((startsWith out "./" || startsWith out "../")%bool = false ->
     resolveOutputPath cwd root inputs (Str out)
     = Ok {| outputBase := Path.resolve cwd [out];
             isDirectoryTarget := true; isSingleFile := false |})
    /\
    (* written as [./...] or [../...] *)
    ((startsWith out "./" || startsWith out "../")%bool = true ->
     forall first rest, inputs = first :: rest ->
       resolveOutputPath cwd root inputs (Str out)
       = Ok {| outputBase :=
                 Path.resolve cwd [Path.dirname (Path.resolve cwd [first]); out];
               isDirectoryTarget := true; isSingleFile := false |}
       /\ (Path.isAbsolute first = true ->
           forall cwd' root',
             resolveOutputPath cwd' root' inputs (Str out)
             = resolveOutputPath cwd root inputs (Str out))).
Proof.
  intros cwd root inputs out Hout. split.
  - intro Hrel. unfold resolveOutputPath.
    now rewrite (truthy_Str out Hout), Hrel.
  - intros Hrel first rest ->.
    assert (Hform : forall c r,
      resolveOutputPath c r (first :: rest) (Str out)
      = Ok {| outputBase := Path.resolve c [Path.dirname (Path.resolve c [first]); out];
              isDirectoryTarget := true; isSingleFile := false |}).
    { intros c r. unfold resolveOutputPath.
      rewrite (truthy_Str out Hout), Hrel. simpl nth_error. cbv iota.
      now destruct (statIsDirectory r (Path.resolve c [first])). }
    split; [apply Hform|].
    intros Hfirst cwd' root'. rewrite !Hform.
    rewrite (resolve_absolute_arg cwd' cwd first Hfirst).
    rewrite (resolve_against_absolute cwd' cwd); [reflexivity | | now apply dotted_not_absolute].
    apply dirname_isAbsolute. now apply isAbsolute_resolve_arg.
Qed.

Lemma explicit_output_is_directory_tree_witness :
  resolveOutputPath "/elsewhere" sampleDisk ["/p/photos/sub"; "/p/solo.png"]
    (Str "../export")
  = Ok {| outputBase := "/p/export";
          isDirectoryTarget := true; isSingleFile := false |}
  /\ resolveOutputPath "/p" sampleDisk ["solo.png"] (Str "export")
     = Ok {| outputBase := "/p/export";
             isDirectoryTarget := true; isSingleFile := false |}.
Proof.
  split.
  - destruct (explicit_output_is_directory_tree "/elsewhere" sampleDisk
                ["/p/photos/sub"; "/p/solo.png"] "../export") as [_ H];
      [discriminate|].
    destruct (H eq_refl "/p/photos/sub" ["/p/solo.png"] eq_refl) as [H' _].
    exact H'.
  - destruct (explicit_output_is_directory_tree "/p" sampleDisk
                ["solo.png"] "export") as [H _]; [discriminate|].
    exact (H eq_refl).
Defined.

End OutputTarget.

Section DefaultTarget.

Lemma hasSlash_append (a b : string) :
  hasSlash (a ++ b) = (hasSlash a || hasSlash b)%bool.
Proof.
  induction a as [|c a IH]; [reflexivity|].
  simpl. now rewrite IH, orb_assoc.
Qed.

(** A string of three characters or more without a slash is a valid
    name. *)
Lemma validName_long (s : string) :
  hasSlash s = false -> 3 <= String.length s -> validName s = true.
Proof.
  intros Hs Hl. unfold validName, Path.nonEmpty. rewrite Hs.
  destruct s as [|a [|b [|c s]]]; simpl in Hl; try lia.
  rewrite !(eqb_false_of_neq (String a (String b (String c s)))) by discriminate.
  reflexivity.
Qed.

Lemma validName_tagged (a b : string) :
  hasSlash a = false -> hasSlash b = false ->
  validName (a ++ "-imgwork" ++ b) = true.
Proof.
  intros Ha Hb. apply validName_long.
  - rewrite !hasSlash_append, Ha, Hb. reflexivity.
  - rewrite !length_append. simpl. lia.
Qed.

Lemma names_snoc (names : list string) :
  names = [] \/ exists dir name, names = (dir ++ [name])%list.
Proof.
  destruct names as [|x l]; [now left | right].
  destruct (@exists_last _ (x :: l)) as [dir [name E]]; [discriminate|].
  now exists dir, name.
Qed.

Lemma validNames_snoc (dir : list string) (name : string) :
  validNames (dir ++ [name]) = true ->
  validNames dir = true /\ validName name = true.
Proof.
  intro H. apply validNames_app in H as [Hd Hn].
  apply validNames_cons in Hn as [Hn _]. now split.
Qed.

Lemma absolute_snoc_tagged (dir : list string) (name tag : string) :
  absolute (dir ++ [name]) ++ tag = absolute (dir ++ [name ++ tag]).
Proof.
  rewrite !absolute_app by discriminate.
  change (Path.joinSlash [name]) with name.
  change (Path.joinSlash [name ++ tag]) with (name ++ tag).
  rewrite append_assoc. reflexivity.
Qed.

(** Tagging the last name of an absolute path keeps its parent. *)
Lemma tagged_sibling (names : list string) :
  validNames names = true ->
  Path.dirname (absolute names ++ "-imgwork") = Path.dirname (absolute names)
  /\ Path.lastComponent (absolute names ++ "-imgwork")
     = Path.lastComponent (absolute names) ++ "-imgwork".
Proof.
  intro H. destruct (names_snoc names) as [-> | [dir [name ->]]].
  - split; reflexivity.
  - apply validNames_snoc in H as [Hd Hn].
    assert (Ht : validName (name ++ "-imgwork") = true).
    { rewrite <- (append_empty_r (name ++ "-imgwork")), append_assoc.
      apply validName_tagged; [now apply validName_plain | reflexivity]. }
    rewrite absolute_snoc_tagged.
    now rewrite !dirname_absolute, !lastComponent_absolute.
Qed.

Lemma statIsDirectory_file (root : node) (path : string) :
  lookup root path = Some File -> statIsDirectory root path = false.
Proof. unfold statIsDirectory. now intros ->. Qed.

(** The single-file target: the tagged name in the file's own parent. *)
Lemma tagged_file (names : list string) :
  validNames names = true ->
  let p := absolute names in
  let ext := Path.extname p in
  let B := Path.basename p (Some ext) in
  let target := Path.join [Path.dirname p; B ++ "-imgwork" ++ ext] in
  Path.dirname target = Path.dirname p
  /\ Path.lastComponent target = B ++ "-imgwork" ++ ext.
Proof.
  intro H. destruct (names_snoc names) as [-> | [dir [name ->]]].
  - split; reflexivity.
  - apply validNames_snoc in H as [Hd Hn].
    intros p ext B target. subst target B ext p.
    rewrite extname_absolute, dirname_absolute by assumption.
    pose proof (basename_extname dir name Hd Hn) as Hsplit.
    set (B := Path.basename (absolute (dir ++ [name])) (Some (Path.extname name))) in *.
    assert (Hplain : hasSlash B = false /\ hasSlash (Path.extname name) = false).
    { pose proof (validName_plain name Hn) as Hs.
      rewrite <- Hsplit, hasSlash_append in Hs. now apply orb_false_iff in Hs. }
    destruct Hplain as [HB He].
    pose proof (validName_tagged B (Path.extname name) HB He) as Hv.
    rewrite join_name by assumption.
    now rewrite dirname_absolute, lastComponent_absolute.
Qed.

(** C6: with no explicit output, one input that is a directory gives a
    directory tree at the directory's path with [-imgwork] appended to its
    name, beside it under the same parent; one input that is a file [F]
    gives a single file [B-imgwork.ext] in the parent directory of [F];
    more than one input gives a directory tree at [imgwork-output] under
    the working directory. *)
Theorem default_output_target :
  forall (here : list string) (root : node) (outOption : value),
    validNames here = true ->
    truthy outOption = false ->
    let cwd := absolute here in
    (forall D : string,
        statIsDirectory root (Path.resolve cwd [D]) = true ->
        let d := Path.resolve cwd [D] in
        resolveOutputPath cwd root [D] outOption
        = Ok {| outputBase := d ++ "-imgwork";
                isDirectoryTarget := true; isSingleFile := false |}
        /\ Path.dirname (d ++ "-imgwork") = Path.dirname d
        /\ Path.lastComponent (d ++ "-imgwork") = Path.lastComponent d ++ "-imgwork")
    /\ (forall F : string,
           lookup root (Path.resolve cwd [F]) = Some File ->
           let p := Path.resolve cwd [F] in
           let ext := Path.extname p in
           let B := Path.basename p (Some ext) in
           let target := Path.join [Path.dirname p; B ++ "-imgwork" ++ ext] in
           resolveOutputPath cwd root [F] outOption
           = Ok {| outputBase := target;
                   isDirectoryTarget := false; isSingleFile := true |}
           /\ Path.dirname target = Path.dirname p
           /\ Path.lastComponent target = B ++ "-imgwork" ++ ext)
    /\ (forall (a b : string) (rest : list string),
           resolveOutputPath cwd root (a :: b :: rest) outOption
           = Ok {| outputBase := absolute (here ++ ["imgwork-output"]);
                   isDirectoryTarget := true; isSingleFile := false |}).
Proof.
  intros here root outOption Hhere Hout cwd.
  assert (Hcwd : Path.isAbsolute cwd = true) by reflexivity.
  split; [|split].
  - intros D HD d.
    destruct (resolve_form cwd [D] Hcwd) as [names [Hnames E]].
    split.
    + unfold resolveOutputPath. rewrite Hout. fold d. subst d. now rewrite HD.
    + subst d. rewrite E. now apply tagged_sibling.
  - intros F HF p ext B target.
    destruct (resolve_form cwd [F] Hcwd) as [names [Hnames E]].
    split.
    + unfold resolveOutputPath. rewrite Hout.
      now rewrite (statIsDirectory_file root _ HF).
    + subst target B ext p. rewrite E. now apply tagged_file.
  - intros a b rest. unfold resolveOutputPath. rewrite Hout.
    subst cwd. change "imgwork-output" with (Path.joinSlash ["imgwork-output"]) at 1.
    rewrite resolve_under; [reflexivity | assumption | reflexivity | discriminate].
Qed.

Lemma default_output_target_witness :
  resolveOutputPath "/p" sampleDisk ["photos/"] Null
  = Ok {| outputBase := "/p/photos-imgwork";
          isDirectoryTarget := true; isSingleFile := false |}
  /\ resolveOutputPath "/p" sampleDisk ["solo.png"] Null
     = Ok {| outputBase := "/p/solo-imgwork.png";
             isDirectoryTarget := false; isSingleFile := true |}
  /\ resolveOutputPath "/p" sampleDisk ["solo.png"; "photos"] Null
     = Ok {| outputBase := "/p/imgwork-output";
             isDirectoryTarget := true; isSingleFile := false |}.
Proof.
  destruct (default_output_target ["p"] sampleDisk Null eq_refl eq_refl)
    as (Hdir & Hfile & Hmany).
  split; [|split].
  - exact (proj1 (Hdir "photos/" eq_refl)).
  - exact (proj1 (Hfile "solo.png" eq_refl)).
  - exact (Hmany "solo.png" "photos" []).
Defined.

End DefaultTarget.

(* ================================================================== *)
(** * The per-file output path *)
(* ================================================================== *)

Section PerFilePath.

(** The loop with its [break] finds the base of the first owning input;
    the [!baseDir] fallback only ever fires when there is none. *)
Lemma owningBaseDir_base (cwd : string) (root : node) (inputFile : string)
  (allInputs : list string) :
  match owningBaseDir cwd root inputFile allInputs with
  | Some dir => if String.eqb dir "" then Path.dirname inputFile else dir
  | None => Path.dirname inputFile
  end
  = relativizationBase cwd root inputFile allInputs.
Proof.
  unfold relativizationBase, owner.
  induction allInputs as [|input rest IH]; [reflexivity|].
  simpl. destruct (startsWith inputFile (Path.resolve cwd [input])); [|exact IH].
  destruct (statIsDirectory root (Path.resolve cwd [input])).
  - now rewrite (eqb_false_of_neq _ "" (resolve_not_empty cwd [input])).
  - now rewrite (eqb_false_of_neq _ "" (dirname_not_empty (Path.resolve cwd [input]))).
Qed.

Lemma getOutputFilePath_tree (host : Host) (cwd : string) (root : node)
  (inputFile : string) (allInputs : list string) (outputInfo : OutputInfo)
  (newExtension : value) :
  isSingleFile outputInfo = false ->
  getOutputFilePath host cwd root inputFile allInputs outputInfo newExtension
  = Ok (Path.join
          [Path.join [outputBase outputInfo;
                      Path.relative cwd
                        (relativizationBase cwd root inputFile allInputs)
                        (Path.dirname inputFile)];
           Path.basename inputFile (Some (Path.extname inputFile))
           ++ outputExtension newExtension inputFile]).
Proof.
  intro H. unfold getOutputFilePath. rewrite H, owningBaseDir_base.
  unfold outputExtension, or_else. now destruct (truthy newExtension).
Qed.

(** A file [sub/name] under the owning input directory lands at
    [sub/final] under the output base. *)
Lemma getOutputFilePath_mirrors (host : Host) (cwd : string) (root : node)
  (allInputs : list string) (outputInfo : OutputInfo) (input : string)
  (newExtension : value) (rootNames sub outNames : list string) (name : string) :
  isSingleFile outputInfo = false ->
  outputBase outputInfo = absolute outNames ->
  validNames rootNames = true -> validNames sub = true ->
  validName name = true -> validNames outNames = true ->
  let file := absolute (rootNames ++ sub ++ [name]) in
  let final := Path.basename file (Some (Path.extname file))
               ++ outputExtension newExtension file in
  validName final = true ->
  owner cwd file allInputs = Some input ->
  Path.resolve cwd [input] = absolute rootNames ->
  statIsDirectory root (absolute rootNames) = true ->
  getOutputFilePath host cwd root file allInputs outputInfo newExtension
  = Ok (absolute (outNames ++ sub ++ [final])).
Proof.
  intros Hsingle Hbase Hr Hs Hn Ho file final Hfinal Hown Hres Hdir.
  rewrite getOutputFilePath_tree by assumption. fold final.
  unfold relativizationBase. rewrite Hown, Hres, Hdir, Hbase.
  subst file. rewrite app_assoc.
  assert (Hrs : validNames (rootNames ++ sub) = true) by now apply validNames_app.
  rewrite dirname_absolute by assumption.
  rewrite relative_under by assumption.
  rewrite join_under by assumption.
  rewrite join_name by (assumption || now apply validNames_app).
  now rewrite <- app_assoc.
Qed.

(** C5: for a directory-tree target, [getOutputFilePath] takes as owner
    the first input whose resolved absolute path the file's path starts
    with, relativizes the file's directory against the owner itself when
    it is a directory, against its parent when it is not, against the
    file's own parent when no input owns the file, and returns target
    root / that relative directory / base name with the new or original
    extension.  In particular a file [sub/name] under the owning input
    directory maps to [OUT/sub/name], with the extension substituted when
    a new one is given. *)
Theorem directory_tree_output_path :
  forall (host : Host) (cwd : string) (root : node) (inputFile : string)
         (allInputs : list string) (outputInfo : OutputInfo) (newExtension : value),
    isSingleFile outputInfo = false ->
    let result :=
      getOutputFilePath host cwd root inputFile allInputs outputInfo newExtension in
    let stem := Path.basename inputFile (Some (Path.extname inputFile)) in
    result
    = Ok (Path.join
            [Path.join [outputBase outputInfo;
                        Path.relative cwd
                          (relativizationBase cwd root inputFile allInputs)
                          (Path.dirname inputFile)];
             stem ++ outputExtension newExtension inputFile])
    /\ (forall (rootNames sub outNames : list string) (name input : string),
           validNames rootNames = true -> validNames sub = true ->
           validName name = true -> validNames outNames = true ->
           inputFile = absolute (rootNames ++ sub ++ [name]) ->
           outputBase outputInfo = absolute outNames ->
           owner cwd inputFile allInputs = Some input ->
           Path.resolve cwd [input] = absolute rootNames ->
           statIsDirectory root (absolute rootNames) = true ->
           (truthy newExtension = false ->
            result = Ok (absolute (outNames ++ sub ++ [name])))
           /\ (forall e : string,
                  newExtension = Str e -> e <> "" ->
                  validName (stem ++ e) = true ->
                  result = Ok (absolute (outNames ++ sub ++ [stem ++ e])))).
Proof.
  intros host cwd root inputFile allInputs outputInfo newExtension Hsingle result stem.
  split; [now apply getOutputFilePath_tree|].
  intros rootNames sub outNames name input Hr Hs Hn Ho Hfile Hbase Hown Hres Hdir.
  assert (Hrs : validNames (rootNames ++ sub) = true) by now apply validNames_app.
  assert (Hstem : stem ++ Path.extname inputFile = name).
  { subst stem. rewrite Hfile, app_assoc.
    rewrite extname_absolute by assumption. now apply basename_extname. }
  subst result. rewrite Hfile in Hown |- *.
  split.
  - intro Hnew.
    rewrite (getOutputFilePath_mirrors host cwd root allInputs outputInfo input
               newExtension rootNames sub outNames name); try assumption.
    + unfold outputExtension. rewrite Hnew. rewrite <- Hfile. fold stem.
      now rewrite Hstem.
    + unfold outputExtension. rewrite Hnew. rewrite <- Hfile. fold stem.
      now rewrite Hstem.
  - intros e -> He Hvalid.
    rewrite (getOutputFilePath_mirrors host cwd root allInputs outputInfo input
               (Str e) rootNames sub outNames name); try assumption.
    + unfold outputExtension. rewrite (truthy_Str e He). rewrite <- Hfile.
      reflexivity.
    + unfold outputExtension. rewrite (truthy_Str e He). rewrite <- Hfile.
      exact Hvalid.
Qed.

Lemma directory_tree_output_path_witness :
  getOutputFilePath plainHost "/" sampleDisk "/p/photos/sub/deep/z.webp"
    ["/p/solo.png"; "/p/photos"] (tree "/out") Null
  = Ok "/out/sub/deep/z.webp"
  /\ getOutputFilePath plainHost "/" sampleDisk "/p/photos/sub/deep/z.webp"
       ["/p/solo.png"; "/p/photos"] (tree "/out") (Str ".png")
     = Ok "/out/sub/deep/z.png".
Proof.
  split.
  - destruct (directory_tree_output_path plainHost "/" sampleDisk
                "/p/photos/sub/deep/z.webp" ["/p/solo.png"; "/p/photos"]
                (tree "/out") Null eq_refl) as [_ H].
    destruct (H ["p"; "photos"] ["sub"; "deep"] ["out"] "z.webp" "/p/photos"
                eq_refl eq_refl eq_refl eq_refl eq_refl eq_refl eq_refl eq_refl eq_refl)
      as [H' _].
    exact (H' eq_refl).
  - destruct (directory_tree_output_path plainHost "/" sampleDisk
                "/p/photos/sub/deep/z.webp" ["/p/solo.png"; "/p/photos"]
                (tree "/out") (Str ".png") eq_refl) as [_ H].
    destruct (H ["p"; "photos"] ["sub"; "deep"] ["out"] "z.webp" "/p/photos"
                eq_refl eq_refl eq_refl eq_refl eq_refl eq_refl eq_refl eq_refl eq_refl)
      as [_ H'].
    refine (H' ".png" eq_refl _ eq_refl). discriminate.
Defined.

End PerFilePath.

(* ================================================================== *)
(** * Discovery *)
(* ================================================================== *)

Section Discovery.

(** Induction on a node with the property available for every entry of a
    listing. *)
Lemma node_induction (P : node -> Prop) :
  P File -> P Locked -> P Other ->
  (forall entries, Forall (fun e => P (snd e)) entries -> P (Dir entries)) ->
  forall n, P n.
Proof.
  intros HF HL HO HD.
  fix IH 1. intros [|entries| |]; try assumption.
  apply HD. induction entries as [|[name entry] rest IHrest]; constructor.
  - apply IH.
  - exact IHrest.
Qed.

Lemma wellNamed_Dir (name : string) (entry : node) (rest : list (string * node)) :
  wellNamed (Dir ((name, entry) :: rest)) = true ->
  validName name = true /\ wellNamed entry = true /\ wellNamed (Dir rest) = true.
Proof.
  intro H. simpl in H.
  apply andb_true_iff in H as [H Hrest]. apply andb_true_iff in H as [Hn He].
  repeat split; assumption.
Qed.

Lemma fst_both (a b : found) : fst (both a b) = (fst a ++ fst b)%list.
Proof. reflexivity. Qed.

Lemma snd_both (a b : found) : snd (both a b) = (snd a ++ snd b)%list.
Proof. reflexivity. Qed.

Lemma isImageFile_absolute (dir : list string) (name : string) :
  validNames dir = true -> validName name = true ->
  isImageFile (absolute (dir ++ [name])) = recognised name.
Proof.
  intros Hd Hn. unfold isImageFile, recognised.
  now rewrite extname_absolute.
Qed.

Lemma validNames_snoc_intro (dir : list string) (name : string) :
  validNames dir = true -> validName name = true ->
  validNames (dir ++ [name]) = true.
Proof.
  intros Hd Hn. apply validNames_app. split; [assumption|].
  apply validNames_cons. now split.
Qed.

(** What [findImagesInDirectory] collects under a directory is the
    recognised regular files under it, in listing order, depth first. *)
Lemma findImagesInDirectory_imagePaths (cwd : string) (n : node) :
  forall here : list string,
    wellNamed n = true -> validNames here = true ->
    fst (findImagesInDirectory cwd (absolute here) n)
    = map absolute (imagePaths here n).
Proof.
  induction n as [| | |entries IH] using node_induction;
    intros here Hwf Hhere; try reflexivity.
  induction entries as [|[name entry] rest IHrest]; [reflexivity|].
  apply wellNamed_Dir in Hwf as (Hname & Hentry & Hrest).
  inversion IH as [|? ? IHentry IHothers]; subst.
  specialize (IHrest IHothers Hrest).
  simpl in IHentry.
  change (fst (findImagesInDirectory cwd (absolute here) (Dir ((name, entry) :: rest))))
    with (fst (both
                 (if isDirectory entry
                  then findImagesInDirectory cwd (Path.join [absolute here; name]) entry
                  else if (isFile entry && isImageFile (Path.join [absolute here; name]))%bool
                       then ([Path.resolve cwd [Path.join [absolute here; name]]], [])
                       else ([], []))
                 (findImagesInDirectory cwd (absolute here) (Dir rest)))).
  change (imagePaths here (Dir ((name, entry) :: rest)))
    with ((match entry with
           | File => if recognised name then [(here ++ [name])%list] else []
           | Other => []
           | _ => imagePaths (here ++ [name])%list entry
           end) ++ imagePaths here (Dir rest))%list.
  rewrite fst_both, IHrest, map_app, join_name by assumption.
  f_equal.
  pose proof (validNames_snoc_intro here name Hhere Hname) as Hfull.
  destruct entry as [|sub| |]; simpl isDirectory; simpl isFile; cbv iota.
  - rewrite isImageFile_absolute by assumption. simpl andb.
    destruct (recognised name); [|reflexivity].
    simpl. now rewrite resolve_absolute.
  - now apply IHentry.
  - reflexivity.
  - reflexivity.
Qed.

Lemma imagePaths_count (n : node) :
  forall here, List.length (imagePaths here n) = countFiles recognised n.
Proof.
  induction n as [| | |entries IH] using node_induction; intro here; try reflexivity.
  induction entries as [|[name entry] rest IHrest]; [reflexivity|].
  inversion IH as [|? ? IHentry IHothers]; subst.
  specialize (IHrest IHothers). simpl in IHentry.
  change (imagePaths here (Dir ((name, entry) :: rest)))
    with ((match entry with
           | File => if recognised name then [(here ++ [name])%list] else []
           | Other => []
           | _ => imagePaths (here ++ [name])%list entry
           end) ++ imagePaths here (Dir rest))%list.
  change (countFiles recognised (Dir ((name, entry) :: rest)))
    with ((match entry with
           | File => if recognised name then 1 else 0
           | _ => countFiles recognised entry
           end) + countFiles recognised (Dir rest)).
  rewrite length_app, IHrest. f_equal.
  destruct entry; try reflexivity.
  - now destruct (recognised name).
  - apply IHentry.
Qed.

(** Every path listed by [imagePaths] ends in a recognised name and is
    made of valid names. *)
Lemma imagePaths_recognised (n : node) :
  forall here, wellNamed n = true -> validNames here = true ->
    Forall (fun names => exists dir name,
                names = (dir ++ [name])%list /\ validNames dir = true
                /\ validName name = true /\ recognised name = true)
           (imagePaths here n).
Proof.
  induction n as [| | |entries IH] using node_induction;
    intros here Hwf Hhere; try constructor.
  induction entries as [|[name entry] rest IHrest]; [constructor|].
  apply wellNamed_Dir in Hwf as (Hname & Hentry & Hrest).
  inversion IH as [|? ? IHentry IHothers]; subst.
  specialize (IHrest IHothers Hrest). simpl in IHentry.
  change (imagePaths here (Dir ((name, entry) :: rest)))
    with ((match entry with
           | File => if recognised name then [(here ++ [name])%list] else []
           | Other => []
           | _ => imagePaths (here ++ [name])%list entry
           end) ++ imagePaths here (Dir rest))%list.
  apply Forall_app. split; [|exact IHrest].
  destruct entry as [|sub| |].
  - destruct (recognised name) eqn:E; constructor; [|constructor].
    exists here, name. repeat split; assumption.
  - apply IHentry; [assumption | now apply validNames_snoc_intro].
  - constructor.
  - constructor.
Qed.

Lemma countFiles_split (keep : string -> bool) (n : node) :
  countFiles keep n + countFiles (fun name => negb (keep name)) n
  = countFiles (fun _ => true) n.
Proof.
  induction n as [| | |entries IH] using node_induction; try reflexivity.
  induction entries as [|[name entry] rest IHrest]; [reflexivity|].
  inversion IH as [|? ? IHentry IHothers]; subst.
  specialize (IHrest IHothers). simpl in IHentry.
  assert (Hunfold : forall k,
    countFiles k (Dir ((name, entry) :: rest))
    = (match entry with
       | File => if k name then 1 else 0
       | _ => countFiles k entry
       end) + countFiles k (Dir rest)) by reflexivity.
  rewrite !Hunfold.
  destruct entry; simpl in *; try lia.
  destruct (keep name); simpl; lia.
Qed.

End Discovery.

Section DiscoveryOfInputs.

Lemma findEntry_wellNamed (name : string) (entries : list (string * node)) (child : node) :
  wellNamed (Dir entries) = true -> findEntry name entries = Some child ->
  wellNamed child = true.
Proof.
  induction entries as [|[n entry] rest IH]; [discriminate|].
  intros Hwf Hfind. apply wellNamed_Dir in Hwf as (_ & Hentry & Hrest).
  simpl in Hfind. destruct (String.eqb n name).
  - now injection Hfind as <-.
  - now apply IH.
Qed.

Lemma walk_wellNamed (names : list string) :
  forall n found, wellNamed n = true -> walk n names = Some found ->
                  wellNamed found = true.
Proof.
  induction names as [|name rest IH]; intros n found Hwf Hwalk.
  - now injection Hwalk as <-.
  - simpl in Hwalk. destruct n as [|entries| |]; try discriminate.
    destruct (findEntry name entries) as [child|] eqn:E; [|discriminate].
    apply (IH child); [|assumption].
    now apply (findEntry_wellNamed name entries).
Qed.

Lemma both_nil_l (a : found) : both ([], []) a = a.
Proof. now destruct a. Qed.

Lemma both_assoc (a b c : found) : both (both a b) c = both a (both b c).
Proof. unfold both. simpl. now rewrite !app_assoc. Qed.

(** Discovery goes input by input: the result for a list is the results
    for its parts, one after the other. *)
Lemma findImages_app (cwd : string) (root : node) (before after : list string) :
  findImages cwd root (before ++ after)
  = both (findImages cwd root before) (findImages cwd root after).
Proof.
  induction before as [|p before IH]; simpl.
  - now rewrite both_nil_l.
  - now rewrite IH, both_assoc.
Qed.

Lemma findImages_one (cwd : string) (root : node) (input : string) :
  findImages cwd root [input]
  = match lookup root (Path.resolve cwd [input]) with
    | None => ([], ["Error: Path does not exist: " ++ input])
    | Some stat =>
        if isDirectory stat
        then findImagesInDirectory cwd (Path.resolve cwd [input]) stat
        else if (isFile stat && isImageFile (Path.resolve cwd [input]))%bool
             then ([Path.resolve cwd [input]], [])
             else ([], ["Skipping non-image file: " ++ input])
    end.
Proof.
  simpl. unfold both. simpl. rewrite !app_nil_r.
  now destruct (match lookup root _ with None => _ | Some _ => _ end).
Qed.

Lemma findImages_directory (here : list string) (root : node) (input : string) (n : node) :
  validNames here = true -> wellNamed root = true ->
  lookup root (Path.resolve (absolute here) [input]) = Some n ->
  isDirectory n = true ->
  fst (findImages (absolute here) root [input])
  = map absolute (imagePaths (Path.components (Path.resolve (absolute here) [input])) n).
Proof.
  intros Hhere Hroot Hlook Hdir.
  rewrite findImages_one, Hlook, Hdir.
  destruct (resolve_form (absolute here) [input] eq_refl) as [names [Hnames E]].
  rewrite E in *. rewrite components_absolute by assumption.
  apply findImagesInDirectory_imagePaths; [|assumption].
  unfold lookup in Hlook. now apply (walk_wellNamed _ root n Hroot) in Hlook.
Qed.

Lemma findImages_sound (here : list string) (root : node) (paths : list string) :
  validNames here = true -> wellNamed root = true ->
  Forall (fun p => isImageFile p = true) (fst (findImages (absolute here) root paths)).
Proof.
  intros Hhere Hroot. induction paths as [|input rest IH]; [constructor|].
  change (input :: rest) with ([input] ++ rest)%list.
  rewrite findImages_app, fst_both. apply Forall_app. split; [|exact IH].
  destruct (lookup root (Path.resolve (absolute here) [input])) as [n|] eqn:Hlook.
  - destruct (isDirectory n) eqn:Hdir.
    + rewrite (findImages_directory here root input n) by assumption.
      apply Forall_map.
      destruct (resolve_form (absolute here) [input] eq_refl) as [names [Hnames E]].
      rewrite E, components_absolute by assumption.
      assert (Hn : wellNamed n = true).
      { unfold lookup in Hlook. now apply (walk_wellNamed _ root n Hroot) in Hlook. }
      eapply Forall_impl; [|apply (imagePaths_recognised n names Hn Hnames)].
      intros p (dir & name & -> & Hd & Hname & Hrec). simpl.
      now rewrite isImageFile_absolute.
    + rewrite findImages_one, Hlook, Hdir.
      destruct (isFile n && isImageFile _)%bool eqn:E; [|constructor].
      apply andb_true_iff in E as [_ E]. now repeat constructor.
  - rewrite findImages_one, Hlook. constructor.
Qed.

(** C8: discovery returns only files whose extension, case-insensitively,
    is one of the recognised ones; a directory input holding N such
    regular files at any depth and M other regular files contributes
    exactly those N, in depth-first listing order; the inputs are
    searched one after the other, and one that does not exist is skipped
    with an "Error: Path does not exist" line while the others are
    discovered as without it. *)
Theorem discovery_returns_recognised_images :
  forall (here : list string) (root : node),
    validNames here = true ->
    wellNamed root = true ->
    let cwd := absolute here in
    (forall paths,
        Forall (fun p => isImageFile p = true) (fst (findImages cwd root paths)))
    /\ (forall input n,
           lookup root (Path.resolve cwd [input]) = Some n ->
           isDirectory n = true ->
           fst (findImages cwd root [input])
           = map absolute (imagePaths (Path.components (Path.resolve cwd [input])) n)
           /\ List.length (fst (findImages cwd root [input])) = countFiles recognised n
           /\ countFiles recognised n + countFiles (fun name => negb (recognised name)) n
              = countFiles (fun _ => true) n)
    /\ (forall input,
           lookup root (Path.resolve cwd [input]) = Some File ->
           fst (findImages cwd root [input])
           = if isImageFile (Path.resolve cwd [input])
             then [Path.resolve cwd [input]] else [])
    /\ (forall before after,
           findImages cwd root (before ++ after)
           = both (findImages cwd root before) (findImages cwd root after))
    /\ (forall before missing after,
           lookup root (Path.resolve cwd [missing]) = None ->
           fst (findImages cwd root (before ++ missing :: after))
           = fst (findImages cwd root (before ++ after))
           /\ In ("Error: Path does not exist: " ++ missing)
                 (snd (findImages cwd root (before ++ missing :: after)))).
Proof.
  intros here root Hhere Hroot cwd. subst cwd.
  split; [|split; [|split; [|split]]].
  - intro paths. now apply findImages_sound.
  - intros input n Hlook Hdir.
    pose proof (findImages_directory here root input n Hhere Hroot Hlook Hdir) as E.
    split; [exact E | split].
    + now rewrite E, length_map, imagePaths_count.
    + apply countFiles_split.
  - intros input Hlook. rewrite findImages_one, Hlook. simpl.
    now destruct (isImageFile _).
  - intros before after. apply findImages_app.
  - intros before missing after Hlook.
    change (missing :: after) with ([missing] ++ after)%list.
    rewrite !findImages_app, findImages_one, Hlook. split.
    + now rewrite !fst_both.
    + rewrite !snd_both. apply in_or_app. right. now left.
Qed.

Lemma discovery_returns_recognised_images_witness :
  List.length (fst (findImages "/p" sampleDisk ["photos"])) = 3
  /\ fst (findImages "/p" sampleDisk (["photos"] ++ "nowhere" :: ["solo.png"]))
     = fst (findImages "/p" sampleDisk (["photos"] ++ ["solo.png"])).
Proof.
  destruct (discovery_returns_recognised_images ["p"] sampleDisk eq_refl eq_refl)
    as (_ & Hdir & _ & _ & Hmissing).
  split.
  - destruct (Hdir "photos" (Dir [("x.jpg", File); ("notes.txt", File);
                                  ("sub", Dir [("y.PNG", File);
                                               ("deep", Dir [("z.webp", File)])])])
                eq_refl eq_refl) as (_ & Hcount & _).
    exact Hcount.
  - exact (proj1 (Hmissing ["photos"] "nowhere" ["solo.png"] eq_refl)).
Defined.

End DiscoveryOfInputs.

(* ================================================================== *)
(** * What the commands hand to the library *)
(* ================================================================== *)

Section Requests.

Lemma includes_In (l : list string) (s : string) :
  includes l s = true <-> In s l.
Proof.
  unfold includes. rewrite existsb_exists. split.
  - intros [x [Hin E]]. apply String.eqb_eq in E. now subst x.
  - intro Hin. exists s. split; [assumption | apply String.eqb_refl].
Qed.

Lemma quotient_within (a k : Z) :
  (0 < k)%Z -> (0 <= a)%Z -> (0 <= a / k <= a)%Z.
Proof.
  intros Hk Ha. split.
  - now apply Z.div_pos.
  - apply Z.div_le_upper_bound; nia.
Qed.

Lemma quotient_positive (a k : Z) :
  (0 < k)%Z -> (k <= a)%Z -> (0 < a / k)%Z.
Proof. intros Hk Ha. apply Z.div_str_pos. lia. Qed.

Lemma notPositive_false (n : option Z) :
  notPositive n = false -> exists z, n = Some z /\ (0 < z)%Z.
Proof.
  destruct n as [z|]; [|discriminate]. simpl. intro H.
  exists z. split; [reflexivity | now apply Z.leb_gt].
Qed.

(** X2: what [parseDimension] returns for an image side that is not
    negative: [null] exactly for a falsy value; otherwise a number that
    is not negative, which for a keyword is at most the side and for a
    number is the positive number [parseInt] reads. *)
Theorem parseDimension_result :
  forall (v : value) (originalSize : Z) (s : size),
    (0 <= originalSize)%Z ->
    parseDimension v originalSize = Ok s ->
    match s with
    | None => truthy v = false
    | Some n =>
        truthy v = true /\ (0 <= n)%Z
        /\ ((n <= originalSize)%Z \/ (parseInt v = Some n /\ (0 < n)%Z))
    end.
Proof.
  intros v orig s Horig. unfold parseDimension.
  destruct (truthy v); simpl negb; cbv iota.
  2: { intro H. now injection H as <-. }
  pose proof (quotient_within orig 2 eq_refl Horig).
  pose proof (quotient_within orig 3 eq_refl Horig).
  pose proof (quotient_within orig 4 eq_refl Horig).
  destruct (String.eqb _ "half"); [intro E; injection E as <-; intuition lia|].
  destruct (String.eqb _ "quarter"); [intro E; injection E as <-; intuition lia|].
  destruct (String.eqb _ "third"); [intro E; injection E as <-; intuition lia|].
  destruct (notPositive (parseInt v)) eqn:En; [discriminate|].
  intro E. injection E as <-.
  destruct (notPositive_false _ En) as [z [-> Hz]].
  repeat split; try lia. right. split; [reflexivity | lia].
Qed.

Lemma parseDimension_result_witness :
  truthy (Str " Half ") = true /\ (0 <= 200)%Z
  /\ ((200 <= 401)%Z \/ (parseInt (Str " Half ") = Some 200%Z /\ (0 < 200)%Z)).
Proof.
  apply (parseDimension_result (Str " Half ") 401 (Some 200%Z)); [lia | reflexivity].
Defined.

(** On a side of four pixels or more every size [parseDimension] returns
    is positive. *)
Lemma parseDimension_positive (v : value) (originalSize n : Z) :
  (4 <= originalSize)%Z ->
  parseDimension v originalSize = Ok (Some n) -> (0 < n)%Z.
Proof.
  intro Horig. unfold parseDimension.
  destruct (truthy v); simpl negb; cbv iota; [|discriminate].
  assert (0 < originalSize / 2)%Z by (apply quotient_positive; lia).
  assert (0 < originalSize / 3)%Z by (apply quotient_positive; lia).
  assert (0 < originalSize / 4)%Z by (apply quotient_positive; lia).
  destruct (String.eqb _ "half"); [intro E; injection E as <-; lia|].
  destruct (String.eqb _ "quarter"); [intro E; injection E as <-; lia|].
  destruct (String.eqb _ "third"); [intro E; injection E as <-; lia|].
  destruct (notPositive (parseInt v)) eqn:En; [discriminate|].
  intro E. destruct (notPositive_false _ En) as [z [Hz Hpos]].
  rewrite Hz in E. injection E as <-. exact Hpos.
Qed.

Lemma parseDimension_null (v : value) (originalSize : Z) :
  parseDimension v originalSize = Ok None -> truthy v = false.
Proof.
  unfold parseDimension. destruct (truthy v); [|reflexivity]. simpl negb. cbv iota.
  destruct (String.eqb _ "half"); [discriminate|].
  destruct (String.eqb _ "quarter"); [discriminate|].
  destruct (String.eqb _ "third"); [discriminate|].
  destruct (notPositive (parseInt v)) eqn:En; [discriminate|].
  destruct (notPositive_false _ En) as [z [-> _]]. discriminate.
Qed.

(** The three shapes of the [resize] call, by the sizes that are there. *)
Lemma resizeCalls_both (w h : Z) :
  (0 < w)%Z -> (0 < h)%Z ->
  resizeCalls (Some w) (Some h) = [Resize (Some w) (Some h) (Some Contain) Undefined].
Proof.
  intros Hw Hh. unfold resizeCalls, sizeTruthy.
  now rewrite (proj2 (Z.eqb_neq w 0)), (proj2 (Z.eqb_neq h 0)) by lia.
Qed.

Lemma resizeCalls_width (w : Z) :
  (0 < w)%Z -> resizeCalls (Some w) None = [Resize (Some w) None None Undefined].
Proof.
  intro Hw. unfold resizeCalls, sizeTruthy.
  now rewrite (proj2 (Z.eqb_neq w 0)) by lia.
Qed.

Lemma resizeCalls_height (h : size) :
  resizeCalls None h = [Resize None h None Undefined].
Proof. reflexivity. Qed.

(** X3: the number-only [resizeImage] either throws, the file system
    untouched, or asks the library for exactly one resize, in one of three
    shapes: to the positive width and height it read from both options,
    with fit [contain]; to the positive width alone when the height is not
    given; to the positive height alone when the width is not given. *)
Theorem resizeImage_plain_requests :
  forall (host : Host) (root : node) (inputPath outputPath : string) (options : Options),
    let result := resizeImage_plain host root inputPath outputPath options in
    (exists message, result = (root, Throw message))
    \/ (exists w h,
           parseInt (width options) = Some w /\ (0 < w)%Z
           /\ parseInt (height options) = Some h /\ (0 < h)%Z
           /\ result
              = toFile host root inputPath
                  [Resize (Some w) (Some h) (Some Contain) Undefined] outputPath)
    \/ (exists w,
           truthy (height options) = false
           /\ parseInt (width options) = Some w /\ (0 < w)%Z
           /\ result
              = toFile host root inputPath [Resize (Some w) None None Undefined]
                  outputPath)
    \/ (exists h,
           truthy (width options) = false
           /\ parseInt (height options) = Some h /\ (0 < h)%Z
           /\ result
              = toFile host root inputPath [Resize None (Some h) None Undefined]
                  outputPath).
Proof.
  intros host root inputPath outputPath options result. subst result.
  unfold resizeImage_plain.
  destruct (truthy (width options)) eqn:Ew, (truthy (height options)) eqn:Eh;
    simpl negb; simpl andb; cbv iota; try (left; eauto; fail);
    unfold parsedOrNull; rewrite ?Ew, ?Eh; simpl givenNotPositive.
  - destruct (notPositive (parseInt (width options))) eqn:Nw; [left; eauto|].
    destruct (notPositive (parseInt (height options))) eqn:Nh; [left; eauto|].
    destruct (notPositive_false _ Nw) as [w [Pw Hw]].
    destruct (notPositive_false _ Nh) as [h [Ph Hh]].
    right; left. exists w, h. rewrite Pw, Ph. simpl numberOrNull.
    rewrite resizeCalls_both by assumption. repeat split; assumption.
  - destruct (notPositive (parseInt (width options))) eqn:Nw; [left; eauto|].
    destruct (notPositive_false _ Nw) as [w [Pw Hw]].
    right; right; left. exists w. rewrite Pw. simpl numberOrNull.
    rewrite resizeCalls_width by assumption. repeat split; assumption.
  - destruct (notPositive (parseInt (height options))) eqn:Nh; [left; eauto|].
    destruct (notPositive_false _ Nh) as [h [Ph Hh]].
    right; right; right. exists h. rewrite Ph. simpl numberOrNull.
    rewrite resizeCalls_height. repeat split; assumption.
Qed.

(** X4: on an image of at least four pixels a side, the keyword-aware
    [resizeImage] either throws, the file system untouched, or asks the
    library for exactly one resize, in one of three shapes: to the positive
    width and height [parseDimension] gave for both options, with fit
    [contain]; to the positive width alone when the height is not given;
    to the positive height alone when the width is not given. *)
Theorem resizeImage_keywords_requests :
  forall (host : Host) (root : node) (inputPath outputPath : string) (options : Options)
         (imgWidth imgHeight : Z),
    metadata host root inputPath = Ok (imgWidth, imgHeight) ->
    (4 <= imgWidth)%Z -> (4 <= imgHeight)%Z ->
    let result := resizeImage_keywords host root inputPath outputPath options in
    (exists message, result = (root, Throw message))
    \/ (exists w h,
           parseDimension (width options) imgWidth = Ok (Some w) /\ (0 < w)%Z
           /\ parseDimension (height options) imgHeight = Ok (Some h) /\ (0 < h)%Z
           /\ result
              = toFile host root inputPath
                  [Resize (Some w) (Some h) (Some Contain) Undefined] outputPath)
    \/ (exists w,
           truthy (height options) = false
           /\ parseDimension (width options) imgWidth = Ok (Some w) /\ (0 < w)%Z
           /\ result
              = toFile host root inputPath [Resize (Some w) None None Undefined]
                  outputPath)
    \/ (exists h,
           truthy (width options) = false
           /\ parseDimension (height options) imgHeight = Ok (Some h) /\ (0 < h)%Z
           /\ result
              = toFile host root inputPath [Resize None (Some h) None Undefined]
                  outputPath).
Proof.
  intros host root inputPath outputPath options iw ih Hmeta Hw Hh result.
  subst result. unfold resizeImage_keywords.
  destruct (negb (truthy (width options)) && negb (truthy (height options)))%bool
    eqn:Enone; [left; eauto|].
  rewrite Hmeta.
  destruct (parseDimension (width options) iw) as [w|m] eqn:Pw; [|left; eauto].
  destruct (parseDimension (height options) ih) as [h|m] eqn:Ph; [|left; eauto].
  right.
  destruct w as [w|], h as [h|].
  - pose proof (parseDimension_positive _ _ _ Hw Pw) as Hpw.
    pose proof (parseDimension_positive _ _ _ Hh Ph) as Hph.
    left. exists w, h. rewrite resizeCalls_both by assumption.
    repeat split; assumption.
  - pose proof (parseDimension_positive _ _ _ Hw Pw) as Hpw.
    right; left. exists w. rewrite resizeCalls_width by assumption.
    repeat split; try assumption. now apply parseDimension_null in Ph.
  - pose proof (parseDimension_positive _ _ _ Hh Ph) as Hph.
    right; right. exists h. rewrite resizeCalls_height.
    repeat split; try assumption. now apply parseDimension_null in Pw.
  - apply parseDimension_null in Pw, Ph. now rewrite Pw, Ph in Enone.
Qed.

Lemma resizeImage_keywords_requests_witness :
  let result :=
    resizeImage_keywords plainHost sampleDisk "/p/solo.png" "/p/solo-imgwork.png"
      resizeTo200 in
  (exists message, result = (sampleDisk, Throw message))
  \/ (exists w h,
         parseDimension (width resizeTo200) 400 = Ok (Some w) /\ (0 < w)%Z
         /\ parseDimension (height resizeTo200) 300 = Ok (Some h) /\ (0 < h)%Z
         /\ result
            = toFile plainHost sampleDisk "/p/solo.png"
                [Resize (Some w) (Some h) (Some Contain) Undefined]
                "/p/solo-imgwork.png")
  \/ (exists w,
         truthy (height resizeTo200) = false
         /\ parseDimension (width resizeTo200) 400 = Ok (Some w) /\ (0 < w)%Z
         /\ result
            = toFile plainHost sampleDisk "/p/solo.png"
                [Resize (Some w) None None Undefined] "/p/solo-imgwork.png")
  \/ (exists h,
         truthy (width resizeTo200) = false
         /\ parseDimension (height resizeTo200) 300 = Ok (Some h) /\ (0 < h)%Z
         /\ result
            = toFile plainHost sampleDisk "/p/solo.png"
                [Resize None (Some h) None Undefined] "/p/solo-imgwork.png").
Proof.
  apply (resizeImage_keywords_requests plainHost sampleDisk "/p/solo.png"
           "/p/solo-imgwork.png" resizeTo200 400 300); [reflexivity | lia | lia].
Defined.

(** X5: on an image one pixel wide, [--w half] alone makes the
    keyword-aware [resizeImage] ask the library for a resize with no size
    at all: half of one pixel is 0, which counts as no width. *)
Theorem resizeImage_keywords_half_of_one :
  forall (host : Host) (root : node) (inputPath outputPath : string) (options : Options)
         (imgHeight : Z),
    metadata host root inputPath = Ok (1%Z, imgHeight) ->
    width options = Str "half" ->
    truthy (height options) = false ->
    resizeImage_keywords host root inputPath outputPath options
    = toFile host root inputPath [Resize None None None Undefined] outputPath.
Proof.
  intros host root inputPath outputPath options ih Hmeta Hw Hh.
  unfold resizeImage_keywords. rewrite Hmeta, Hw, Hh. simpl.
  unfold parseDimension. rewrite Hh. reflexivity.
Qed.

Lemma resizeImage_keywords_half_of_one_witness :
  let thin : Host :=
    {| metadata := fun _ _ => Ok (1%Z, 300%Z);
       toFile := toFile plainHost;
       replaceAtEnd := replaceAtEnd plainHost;
       floorScale := floorScale plainHost |} in
  resizeImage_keywords thin sampleDisk "/p/solo.png" "/p/solo-imgwork.png"
    {| format := Undefined; quality := Undefined; lossless := Undefined;
       width := Str "half"; height := Undefined; position := Undefined;
       newExtension := Undefined |}
  = toFile thin sampleDisk "/p/solo.png" [Resize None None None Undefined]
      "/p/solo-imgwork.png".
Proof.
  intro thin.
  apply (resizeImage_keywords_half_of_one thin sampleDisk "/p/solo.png"
           "/p/solo-imgwork.png" _ 300); reflexivity.
Defined.

Lemma ownProperty_In (map : list (string * string)) (key v : string) :
  ownProperty map key = Some v -> In (key, v) map.
Proof.
  induction map as [|[k x] rest IH]; [discriminate|].
  simpl. destruct (String.eqb k key) eqn:E.
  - apply String.eqb_eq in E. intro H. injection H as ->. subst k. now left.
  - intro H. right. now apply IH.
Qed.

(** X6: the resize-based [cropImage] either throws, the file system
    untouched, or asks the library for exactly one cover-fit resize to the
    positive width and height it read from the options.  The position it
    hands over is the entry of the position table for the lower-cased
    position name when the table has one; for the names [constructor] and
    [__proto__], which the table object inherits, no error is thrown and
    the inherited member is handed over instead. *)
Theorem cropImage_resize_requests :
  forall (host : Host) (root : node) (inputPath outputPath : string) (options : Options),
    let result := cropImage_resize host root inputPath outputPath options in
    (exists message, result = (root, Throw message))
    \/ (exists w h position gravity,
           parseInt (width options) = Some w /\ (0 < w)%Z
           /\ parseInt (height options) = Some h /\ (0 < h)%Z
           /\ positionOrDefault options = Str position
           /\ ((exists name, In (toLowerCase position, name) POSITION_MAP
                             /\ gravity = Str name)
               \/ (In (toLowerCase position) inheritedLowerCase /\ gravity = Obj))
           /\ result
              = toFile host root inputPath
                  [Resize (Some w) (Some h) (Some Cover) gravity] outputPath).
Proof.
  intros host root inputPath outputPath options result. subst result.
  unfold cropImage_resize.
  destruct (_ || _)%bool; [left; eauto|].
  destruct (notPositive (parseInt (width options))) eqn:Nw; [left; eauto|].
  destruct (notPositive (parseInt (height options))) eqn:Nh; [left; eauto|].
  destruct (notPositive_false _ Nw) as [w [Pw Hw]].
  destruct (notPositive_false _ Nh) as [h [Ph Hh]].
  rewrite Pw, Ph.
  destruct (positionOrDefault options) as [| | | | |position|]; try (left; eauto; fail).
  destruct (truthy (property POSITION_MAP (toLowerCase position))) eqn:Et;
    simpl negb; cbv iota; [|left; eauto].
  right. exists w, h, position, (property POSITION_MAP (toLowerCase position)).
  repeat split; try assumption.
  unfold property in *.
  destruct (ownProperty POSITION_MAP (toLowerCase position)) as [name|] eqn:Eo.
  - left. exists name. split; [now apply ownProperty_In | reflexivity].
  - destruct (includes inheritedLowerCase (toLowerCase position)) eqn:Ei;
      [|discriminate].
    right. split; [now apply includes_In | reflexivity].
Qed.

(** The second case happens: [--pos constructor] passes the position check
    and the library is called. *)
Lemma cropImage_resize_inherited_position :
  cropImage_resize plainHost sampleDisk "/p/solo.png" "/p/solo-imgwork.png"
    {| format := Undefined; quality := Undefined; lossless := Undefined;
       width := Str "100"; height := Str "100"; position := Str "constructor";
       newExtension := Undefined |}
  = toFile plainHost sampleDisk "/p/solo.png"
      [Resize (Some 100%Z) (Some 100%Z) (Some Cover) Obj] "/p/solo-imgwork.png".
Proof. reflexivity. Qed.

(** X7: [convertImage] either throws, the file system untouched, or asks
    the library for one conversion to jpeg, png, webp or tiff ([jpg]
    having become [jpeg]), with a quality only for jpeg and webp. *)
Theorem convertImage_requests :
  forall (host : Host) (root : node) (inputPath outputPath : string) (options : Options),
    (exists message,
        convertImage host root inputPath outputPath options = (root, Throw message))
    \/ (exists fmt q,
           convertImage host root inputPath outputPath options
           = toFile host root inputPath [ToFormat (Str fmt) q] outputPath
           /\ In fmt ENCODED_FORMATS
           /\ (q = Undefined
               \/ (q = quality options /\ (fmt = "jpeg" \/ fmt = "webp")))).
Proof.
  intros host root inputPath outputPath options. unfold convertImage.
  destruct (format options) as [| | | | |fmt|]; try (left; eauto; fail).
  destruct (includes SUPPORTED_FORMATS (toLowerCase fmt)) eqn:E; simpl negb; cbv iota;
    [|left; eauto].
  right. apply includes_In in E.
  remember (toLowerCase fmt) as lower eqn:Hl. clear Hl.
  simpl in E.
  destruct E as [<- | [<- | [<- | [<- | [<- | []]]]]]; simpl String.eqb; cbv iota;
    eexists; eexists; (split; [reflexivity|]); (split; [simpl; tauto|]);
    destruct (quality options); simpl; tauto.
Qed.

(** X8: [optimizeImage] either throws, the file system untouched, or asks
    the library for encoder calls whose quality is within 1..100 and
    whose PNG compression level is within 0..9. *)
Theorem optimizeImage_requests :
  forall (host : Host) (root : node) (inputPath outputPath : string) (options : Options),
    (exists message,
        optimizeImage host root inputPath outputPath options = (root, Throw message))
    \/ (exists calls,
           optimizeImage host root inputPath outputPath options
           = toFile host root inputPath calls outputPath
           /\ forallb encoderInRange calls = true).
Proof.
  intros host root inputPath outputPath options. unfold optimizeImage.
  destruct (truthy (quality options)) eqn:Eq, (truthy (lossless options)) eqn:El;
    simpl negb; simpl andb; cbv iota; try (left; eauto; fail).
  - destruct (parseInt (quality options)) as [n|]; [|left; eauto].
    destruct ((n <? 1)%Z || (n >? 100)%Z)%bool eqn:Er; [left; eauto|].
    apply orb_false_iff in Er as [Hlo Hhi].
    apply Z.ltb_ge in Hlo. rewrite Z.gtb_ltb in Hhi. apply Z.ltb_ge in Hhi.
    assert (Hq1 : (1 <=? n)%Z = true) by now apply Z.leb_le.
    assert (Hq2 : (n <=? 100)%Z = true) by now apply Z.leb_le.
    assert (Hp : (0 <= pngCompressionLevel n <= 9)%Z)
      by (unfold pngCompressionLevel; lia).
    remember (pngCompressionLevel n) as level eqn:Hlevel.
    assert (Hl1 : (0 <=? level)%Z = true) by (apply Z.leb_le; lia).
    assert (Hl2 : (level <=? 9)%Z = true) by (apply Z.leb_le; lia).
    right. eexists. split; [reflexivity|].
    simpl sizeNumber. rewrite <- Hlevel. clear Hlevel.
    destruct (isCase (detectFormat inputPath) "jpeg");
      [simpl; now rewrite Hq1, Hq2|].
    destruct (isCase (detectFormat inputPath) "webp");
      [simpl; now rewrite Hq1, Hq2|].
    destruct (isCase (detectFormat inputPath) "png");
      [simpl; now rewrite Hl1, Hl2|].
    reflexivity.
  - right. eexists. split; [reflexivity|].
    destruct (isCase (detectFormat inputPath) "png"); [reflexivity|].
    destruct (isCase (detectFormat inputPath) "webp"); [reflexivity|].
    destruct (isCase (detectFormat inputPath) "jpeg"); reflexivity.
Qed.

(** X9: [optimizeImage] knows the format of exactly the files discovery
    takes for images: [isImageFile] holds of a path if and only if the
    format detected for it is not [null]. *)
Theorem detectFormat_known_iff_image :
  forall path : string, isImageFile path = true <-> detectFormat path <> Null.
Proof.
  intro path. unfold isImageFile, detectFormat, includes, IMAGE_EXTENSIONS.
  remember (toLowerCase (Path.extname path)) as ext eqn:He. clear He.
  simpl existsb.
  destruct (String.eqb ext ".jpg"), (String.eqb ext ".jpeg"), (String.eqb ext ".png"),
    (String.eqb ext ".webp"), (String.eqb ext ".gif"), (String.eqb ext ".tiff"),
    (String.eqb ext ".tif"); simpl; split; congruence.
Qed.

(** X10: a path [isImageFile] accepts ends in a name made of a non-empty
    stem followed by one of the recognised extensions in some letter
    case; a name that is only an extension, like [.jpg], is not an
    image. *)
Theorem isImageFile_name :
  forall path : string,
    isImageFile path = true ->
    exists stem ext,
      Path.lastComponent path = stem ++ ext
      /\ stem <> ""
      /\ In (toLowerCase ext) IMAGE_EXTENSIONS.
Proof.
  intros path H. unfold isImageFile in H. apply includes_In in H.
  destruct (extname_spec path) as [stem [Hlast Hext]].
  exists stem, (Path.extname path). split; [exact Hlast|].
  split; [|exact H].
  destruct Hext as [He | [Hstem _]]; [|exact Hstem].
  rewrite He in H. simpl in H. exfalso.
  repeat (destruct H as [H | H]; [discriminate|]). contradiction.
Qed.

Lemma isImageFile_name_witness :
  exists stem ext,
    Path.lastComponent "/p/photos/sub/y.PNG" = stem ++ ext
    /\ stem <> ""
    /\ In (toLowerCase ext) IMAGE_EXTENSIONS.
Proof.
  apply (isImageFile_name "/p/photos/sub/y.PNG"). reflexivity.
Defined.

End Requests.

(* ================================================================== *)
(** * Creating the output directory *)
(* ================================================================== *)

Section OutputDirectory.

Lemma sameKind_refl (n : node) : sameKind n n = true.
Proof. unfold sameKind. now rewrite !Bool.eqb_reflx. Qed.

(** [updateEntry] changes the entry it names and no other. *)
Lemma updateEntry_other (name other : string) (f : node -> option node)
  (entries entries' : list (string * node)) :
  updateEntry name f entries = Some entries' ->
  String.eqb other name = false ->
  findEntry other entries' = findEntry other entries.
Proof.
  revert entries'. induction entries as [|[n child] rest IH]; intros entries' H Hne; simpl in H.
  - destruct (f (Dir [])) as [c|]; [|discriminate]. injection H as <-.
    simpl. rewrite String.eqb_sym. now rewrite Hne.
  - destruct (String.eqb n name) eqn:En.
    + destruct (f child) as [c|]; [|discriminate]. injection H as <-.
      apply String.eqb_eq in En. subst n. simpl.
      rewrite String.eqb_sym. now rewrite Hne.
    + destruct (updateEntry name f rest) as [rest'|] eqn:Er; [|discriminate].
      injection H as <-. simpl. destruct (String.eqb n other); [reflexivity|].
      now apply IH.
Qed.

Lemma updateEntry_same (name : string) (f : node -> option node)
  (entries entries' : list (string * node)) :
  updateEntry name f entries = Some entries' ->
  exists child',
    findEntry name entries' = Some child'
    /\ f (match findEntry name entries with Some c => c | None => Dir [] end)
       = Some child'.
Proof.
  revert entries'. induction entries as [|[n child] rest IH]; intros entries' H; simpl in H.
  - destruct (f (Dir [])) as [c|] eqn:Ef; [|discriminate]. injection H as <-.
    exists c. simpl. now rewrite String.eqb_refl.
  - simpl. destruct (String.eqb n name) eqn:En.
    + destruct (f child) as [c|] eqn:Ef; [|discriminate]. injection H as <-.
      exists c. simpl. now rewrite En.
    + destruct (updateEntry name f rest) as [rest'|] eqn:Er; [|discriminate].
      injection H as <-. simpl. rewrite En. now apply IH.
Qed.

(** After [mkdir -p] the names lead to a directory. *)
Lemma mkdirp_leads_to_directory (names : list string) :
  forall n n', mkdirp names n = Some n' ->
               exists d, walk n' names = Some d /\ isDirectory d = true.
Proof.
  induction names as [|name rest IH]; intros n n' H; simpl in H.
  - destruct (isDirectory n) eqn:E; [|discriminate]. injection H as <-.
    now exists n.
  - destruct n as [|entries| |]; try discriminate.
    destruct (updateEntry name (mkdirp rest) entries) as [entries'|] eqn:Eu; [|discriminate].
    injection H as <-.
    destruct (updateEntry_same _ _ _ _ Eu) as [child' [Hfind Hmk]].
    simpl. rewrite Hfind. now apply (IH _ _ Hmk).
Qed.

(** [mkdir -p] keeps every path that led somewhere leading to a node of
    the same kind. *)
Lemma mkdirp_keeps (names : list string) :
  forall n n' path found,
    mkdirp names n = Some n' -> walk n path = Some found ->
    exists found', walk n' path = Some found' /\ sameKind found found' = true.
Proof.
  induction names as [|name rest IH]; intros n n' path found H Hwalk; simpl in H.
  - destruct (isDirectory n); [|discriminate]. injection H as <-.
    exists found. split; [assumption | apply sameKind_refl].
  - destruct n as [|entries| |]; try discriminate.
    destruct (updateEntry name (mkdirp rest) entries) as [entries'|] eqn:Eu; [|discriminate].
    injection H as <-.
    destruct path as [|x path].
    + injection Hwalk as <-. now exists (Dir entries').
    + simpl in Hwalk. destruct (findEntry x entries) as [child|] eqn:Ex; [|discriminate].
      destruct (String.eqb x name) eqn:Exn.
      * apply String.eqb_eq in Exn. subst x.
        destruct (updateEntry_same _ _ _ _ Eu) as [child' [Hfind Hmk]].
        rewrite Ex in Hmk. simpl. rewrite Hfind.
        now apply (IH child child' path found).
      * simpl. rewrite (updateEntry_other _ _ _ _ _ Eu Exn), Ex.
        exists found. split; [assumption | apply sameKind_refl].
Qed.

Lemma ensureDirectoryExists_post :
  forall (root root' : node) (dirPath : string),
    ensureDirectoryExists root dirPath = Ok root' ->
    existsSync root' dirPath = true
    /\ (existsSync root dirPath = true -> root' = root)
    /\ (existsSync root dirPath = false -> statIsDirectory root' dirPath = true)
    /\ (forall path found,
           lookup root path = Some found ->
           exists found', lookup root' path = Some found' /\ sameKind found found' = true).
Proof.
  intros root root' dirPath H. unfold ensureDirectoryExists in H.
  destruct (existsSync root dirPath) eqn:Ee; simpl in H.
  - injection H as <-. repeat split; try assumption; try discriminate.
    intros path found Hl. exists found. split; [assumption | apply sameKind_refl].
  - unfold mkdirSync in H.
    destruct (mkdirp (Path.components dirPath) root) as [r|] eqn:Em; [|discriminate].
    injection H as <-.
    destruct (mkdirp_leads_to_directory _ _ _ Em) as [d [Hd Hdir]].
    repeat split.
    + unfold existsSync, lookup. now rewrite Hd.
    + discriminate.
    + intros _. unfold statIsDirectory, lookup. now rewrite Hd.
    + intros path found Hl. now apply (mkdirp_keeps _ _ _ _ _ Em Hl).
Qed.

(** X11: when [ensureDirectoryExists] returns, the path exists, as a
    directory if it had to be created; a file system on which the path
    already existed is returned as it was, and in every case each path
    that led to a file or a directory before still leads to one of the
    same kind. *)
Theorem ensureDirectoryExists_result :
  forall (root root' : node) (dirPath : string),
    ensureDirectoryExists root dirPath = Ok root' ->
    existsSync root' dirPath = true
    /\ (existsSync root dirPath = true -> root' = root)
    /\ (existsSync root dirPath = false -> statIsDirectory root' dirPath = true)
    /\ (forall path found,
           lookup root path = Some found ->
           exists found', lookup root' path = Some found' /\ sameKind found found' = true).
Proof. exact ensureDirectoryExists_post. Qed.

Lemma ensureDirectoryExists_result_witness :
  let root' :=
    Dir [("p", Dir [("photos", Dir [("x.jpg", File);
                                    ("notes.txt", File);
                                    ("sub", Dir [("y.PNG", File);
                                                 ("deep", Dir [("z.webp", File)])])]);
                    ("photos2", Dir [("x.jpg", File)]);
                    ("solo.png", File);
                    ("out", Dir [("a", Dir [])])])] in
  existsSync root' "/p/out/a" = true
  /\ (existsSync sampleDisk "/p/out/a" = true -> root' = sampleDisk)
  /\ (existsSync sampleDisk "/p/out/a" = false -> statIsDirectory root' "/p/out/a" = true)
  /\ (forall path found,
         lookup sampleDisk path = Some found ->
         exists found', lookup root' path = Some found' /\ sameKind found found' = true).
Proof.
  intro root'.
  apply (ensureDirectoryExists_result sampleDisk root' "/p/out/a"). reflexivity.
Defined.

(** X12: the body of the batch loop for one file either throws before the
    processing function is called, the file system as it was, or calls
    the processing function with the output path computed for the file,
    on a file system where the directory of that path exists. *)
Theorem processFile_ensures_directory :
  forall (host : Host) (cwd : string) (inputs : list string) (outputInfo : OutputInfo)
         (processFunc : processor) (options : Options) (root : node) (inputFile : string),
    let attempt :=
      processFile host cwd inputs outputInfo processFunc options root inputFile in
    (exists message, attempt = (root, Throw message))
    \/ (exists outputPath root',
           getOutputFilePath host cwd root inputFile inputs outputInfo
             (or_else (newExtension options) Null) = Ok outputPath
           /\ existsSync root' (Path.dirname outputPath) = true
           /\ (forall path found,
                  lookup root path = Some found ->
                  exists found',
                    lookup root' path = Some found' /\ sameKind found found' = true)
           /\ attempt = processFunc root' inputFile outputPath options).
Proof.
  intros host cwd inputs outputInfo processFunc options root inputFile attempt.
  subst attempt. unfold processFile.
  destruct (getOutputFilePath _ _ _ _ _ _ _) as [outputPath|m]; [|left; eauto].
  destruct (ensureDirectoryExists root (Path.dirname outputPath)) as [root'|m] eqn:Ee;
    [|left; eauto].
  right. exists outputPath, root'.
  destruct (ensureDirectoryExists_post _ _ _ Ee) as (Hex & _ & _ & Hkeep).
  repeat split; assumption.
Qed.

End OutputDirectory.

(* ================================================================== *)
(** * How the commands end *)
(* ================================================================== *)

Section CommandOutcomes.

Variable host : Host.
Variable cwd : string.







End CommandOutcomes.


(* ================================================================== *)
(** * Where each position puts the cut *)
(* ================================================================== *)

Section Anchors.

Lemma centred_half (outer inner : Z) :
  (inner <= outer)%Z -> centred outer inner (Z.max 0 ((outer - inner) / 2)).
Proof.
  intro H. unfold centred.
  pose proof (Z.div_mod (outer - inner) 2) as Hd.
  pose proof (Z.mod_pos_bound (outer - inner) 2). lia.
Qed.

(** X14: for a cut no larger than the image, each of the nine positions of
    the command line, taken through the position table as [cropImage]
    does, puts the cut against the edges it names and centres it on the
    other axis, up to one pixel. *)
Theorem positions_anchor_the_cut :
  forall (imgWidth imgHeight cropWidth cropHeight : Z),
    (cropWidth <= imgWidth)%Z -> (cropHeight <= imgHeight)%Z ->
    let at_ (pos : string) :=
      calculateCropCoordinates imgWidth imgHeight cropWidth cropHeight
        (property POSITION_MAP pos) in
    let leftEdge (c : Z * Z) := fst c = 0%Z in
    let rightEdge (c : Z * Z) := (fst c + cropWidth = imgWidth)%Z in
    let topEdge (c : Z * Z) := snd c = 0%Z in
    let bottomEdge (c : Z * Z) := (snd c + cropHeight = imgHeight)%Z in
    let acrossCentre (c : Z * Z) := centred imgWidth cropWidth (fst c) in
    let downCentre (c : Z * Z) := centred imgHeight cropHeight (snd c) in
    (acrossCentre (at_ "center") /\ downCentre (at_ "center"))
    /\ (acrossCentre (at_ "top") /\ topEdge (at_ "top"))
    /\ (acrossCentre (at_ "bottom") /\ bottomEdge (at_ "bottom"))
    /\ (leftEdge (at_ "left") /\ downCentre (at_ "left"))
    /\ (rightEdge (at_ "right") /\ downCentre (at_ "right"))
    /\ (leftEdge (at_ "top-left") /\ topEdge (at_ "top-left"))
    /\ (rightEdge (at_ "top-right") /\ topEdge (at_ "top-right"))
    /\ (leftEdge (at_ "bottom-left") /\ bottomEdge (at_ "bottom-left"))
    /\ (rightEdge (at_ "bottom-right") /\ bottomEdge (at_ "bottom-right")).
Proof.
  intros iw ih cw ch Hw Hh at_ leftEdge rightEdge topEdge bottomEdge acrossCentre downCentre.
  pose proof (centred_half iw cw Hw) as Hx.
  pose proof (centred_half ih ch Hh) as Hy.
  set (midX := Z.max 0 ((iw - cw) / 2)) in *.
  set (midY := Z.max 0 ((ih - ch) / 2)) in *.
  set (farX := Z.max 0 (iw - cw)).
  set (farY := Z.max 0 (ih - ch)).
  assert (HfarX : (farX + cw = iw)%Z) by (subst farX; lia).
  assert (HfarY : (farY + ch = ih)%Z) by (subst farY; lia).
  assert (E1 : at_ "center" = (midX, midY)) by reflexivity.
  assert (E2 : at_ "top" = (midX, 0%Z)) by reflexivity.
  assert (E3 : at_ "bottom" = (midX, farY)) by reflexivity.
  assert (E4 : at_ "left" = (0%Z, midY)) by reflexivity.
  assert (E5 : at_ "right" = (farX, midY)) by reflexivity.
  assert (E6 : at_ "top-left" = (0%Z, 0%Z)) by reflexivity.
  assert (E7 : at_ "top-right" = (farX, 0%Z)) by reflexivity.
  assert (E8 : at_ "bottom-left" = (0%Z, farY)) by reflexivity.
  assert (E9 : at_ "bottom-right" = (farX, farY)) by reflexivity.
  subst leftEdge rightEdge topEdge bottomEdge acrossCentre downCentre. cbv beta.
  rewrite E1, E2, E3, E4, E5, E6, E7, E8, E9. cbn [fst snd].
  repeat match goal with |- _ /\ _ => split end; try assumption; reflexivity.
Qed.

Lemma positions_anchor_the_cut_witness :
  centred 401 200
    (fst (calculateCropCoordinates 401 300 200 100 (property POSITION_MAP "top")))
  /\ snd (calculateCropCoordinates 401 300 200 100 (property POSITION_MAP "top")) = 0%Z.
Proof.
  destruct (positions_anchor_the_cut 401 300 200 100) as (_ & H & _); [lia | lia |].
  exact H.
Defined.

End Anchors.

(* ================================================================== *)
(** * Where the discovered files are *)
(* ================================================================== *)

Section DiscoveredFiles.

(** Every path listed under a node goes through the names that led to
    the node, then through valid names to a recognised one. *)
Lemma imagePaths_shape (n : node) :
  forall here, wellNamed n = true ->
    Forall (fun names => exists sub name,
                names = (here ++ sub ++ [name])%list /\ validNames sub = true
                /\ validName name = true /\ recognised name = true)
           (imagePaths here n).
Proof.
  induction n as [| | |entries IH] using node_induction;
    intros here Hwf; try constructor.
  induction entries as [|[name entry] rest IHrest]; [constructor|].
  apply wellNamed_Dir in Hwf as (Hname & Hentry & Hrest).
  inversion IH as [|? ? IHentry IHothers]; subst.
  specialize (IHrest IHothers Hrest). simpl in IHentry.
  change (imagePaths here (Dir ((name, entry) :: rest)))
    with ((match entry with
           | File => if recognised name then [(here ++ [name])%list] else []
           | Other => []
           | _ => imagePaths (here ++ [name])%list entry
           end) ++ imagePaths here (Dir rest))%list.
  apply Forall_app. split; [|exact IHrest].
  destruct entry as [|sub| |].
  - destruct (recognised name) eqn:E; constructor; [|constructor].
    exists [], name. repeat split; assumption.
  - eapply Forall_impl; [|apply (IHentry (here ++ [name])%list Hentry)].
    intros q (sub' & nm & -> & Hs & Hn & Hr). exists (name :: sub'), nm.
    repeat split; try assumption.
    + now rewrite <- app_assoc.
    + apply validNames_cons. now split.
  - constructor.
  - constructor.
Qed.

Lemma findEntry_named (x name : string) (entries : list (string * node)) (child : node) :
  findEntry x entries = Some child ->
  existsb (String.eqb name) (map fst entries) = false ->
  String.eqb name x = false.
Proof.
  induction entries as [|[n e] rest IH]; [discriminate|].
  simpl. intros Hfind Hnone. apply orb_false_iff in Hnone as [Hn Hrest].
  destruct (String.eqb n x) eqn:E.
  - apply String.eqb_eq in E. now subst n.
  - now apply IH.
Qed.

Lemma distinctNames_Dir (name : string) (entry : node) (rest : list (string * node)) :
  distinctNames (Dir ((name, entry) :: rest)) = true ->
  existsb (String.eqb name) (map fst rest) = false
  /\ distinctNames entry = true /\ distinctNames (Dir rest) = true.
Proof.
  intro H. simpl in H.
  apply andb_true_iff in H as [H Hrest]. apply andb_true_iff in H as [Hn He].
  apply negb_true_iff in Hn. repeat split; assumption.
Qed.

(** On a node whose listings hold no name twice, every path listed under
    it leads, from the node, to a regular file. *)
Lemma imagePaths_on_disk (n : node) :
  forall here, distinctNames n = true ->
    Forall (fun names => exists rest,
                names = (here ++ rest)%list /\ walk n rest = Some File)
           (imagePaths here n).
Proof.
  induction n as [| | |entries IH] using node_induction;
    intros here Hd; try constructor.
  induction entries as [|[name entry] rest IHrest]; [constructor|].
  apply distinctNames_Dir in Hd as (Hname & Hentry & Hrest).
  inversion IH as [|? ? IHentry IHothers]; subst.
  specialize (IHrest IHothers Hrest). simpl in IHentry.
  change (imagePaths here (Dir ((name, entry) :: rest)))
    with ((match entry with
           | File => if recognised name then [(here ++ [name])%list] else []
           | Other => []
           | _ => imagePaths (here ++ [name])%list entry
           end) ++ imagePaths here (Dir rest))%list.
  apply Forall_app. split.
  - destruct entry as [|sub| |].
    + destruct (recognised name); constructor; [|constructor].
      exists [name]. split; [reflexivity|]. simpl. now rewrite String.eqb_refl.
    + eapply Forall_impl; [|apply (IHentry (here ++ [name])%list Hentry)].
      intros q (r & -> & Hw). exists (name :: r). split.
      * now rewrite <- app_assoc.
      * simpl. now rewrite String.eqb_refl.
    + constructor.
    + constructor.
  - eapply Forall_impl; [|exact IHrest].
    intros q (r & -> & Hw). exists r. split; [reflexivity|].
    destruct r as [|x r]; [discriminate|].
    simpl in Hw |- *.
    destruct (findEntry x rest) as [child|] eqn:Ex; [|discriminate].
    now rewrite (findEntry_named x name rest child Ex Hname).
Qed.

Lemma findEntry_distinct (name : string) (entries : list (string * node)) (child : node) :
  distinctNames (Dir entries) = true -> findEntry name entries = Some child ->
  distinctNames child = true.
Proof.
  induction entries as [|[n entry] rest IH]; [discriminate|].
  intros Hd Hfind. apply distinctNames_Dir in Hd as (_ & Hentry & Hrest).
  simpl in Hfind. destruct (String.eqb n name).
  - now injection Hfind as <-.
  - now apply IH.
Qed.

Lemma walk_distinct (names : list string) :
  forall n found, distinctNames n = true -> walk n names = Some found ->
                  distinctNames found = true.
Proof.
  induction names as [|name rest IH]; intros n found Hd Hwalk.
  - now injection Hwalk as <-.
  - simpl in Hwalk. destruct n as [|entries| |]; try discriminate.
    destruct (findEntry name entries) as [child|] eqn:E; [|discriminate].
    apply (IH child); [|assumption].
    now apply (findEntry_distinct name entries).
Qed.

Lemma walk_app (a b : list string) :
  forall n m, walk n a = Some m -> walk n (a ++ b) = walk m b.
Proof.
  induction a as [|x a IH]; intros n m H.
  - now injection H as <-.
  - simpl in H |- *. destruct n as [|entries| |]; try discriminate.
    destruct (findEntry x entries) as [child|]; [|discriminate].
    now apply IH.
Qed.

Lemma namesPrefix_app (a b : list string) : namesPrefix a (a ++ b) = true.
Proof.
  induction a as [|x a IH]; [reflexivity|].
  simpl. now rewrite String.eqb_refl.
Qed.

Lemma startsWith_refl (s : string) : startsWith s s = true.
Proof.
  unfold startsWith. rewrite <- (append_empty_r s) at 2. apply prefix_append.
Qed.

(** What one input contributes: paths that start with the input's
    absolute path as strings, lie under it as names, and lead to regular
    files when no listing holds a name twice. *)
Lemma findImages_one_under (here : list string) (root : node) (input : string) :
  validNames here = true -> wellNamed root = true ->
  Forall (fun p =>
            startsWith p (Path.resolve (absolute here) [input]) = true
            /\ liesUnder (absolute here) p input = true
            /\ (distinctNames root = true -> lookup root p = Some File))
         (fst (findImages (absolute here) root [input])).
Proof.
  intros Hhere Hroot. set (cwd := absolute here).
  destruct (resolve_form cwd [input] eq_refl) as [names [Hnames E]].
  destruct (lookup root (Path.resolve cwd [input])) as [n|] eqn:Hlook.
  2: { rewrite findImages_one, Hlook. constructor. }
  destruct (isDirectory n) eqn:Hdir.
  - subst cwd. rewrite (findImages_directory here root input n) by assumption.
    set (cwd := absolute here) in *. rewrite E in Hlook |- *.
    rewrite components_absolute by assumption.
    unfold lookup in Hlook. rewrite components_absolute in Hlook by assumption.
    pose proof (walk_wellNamed _ root n Hroot Hlook) as Hn.
    apply Forall_map.
    pose proof (imagePaths_shape n names Hn) as Hshape.
    assert (Hdisk : distinctNames root = true ->
                    Forall (fun q => exists rest, q = (names ++ rest)%list
                                                  /\ walk n rest = Some File)
                           (imagePaths names n)).
    { intro Hd. apply imagePaths_on_disk. now apply (walk_distinct names root). }
    apply Forall_forall. intros q Hq.
    rewrite Forall_forall in Hshape.
    destruct (Hshape q Hq) as (sub & name & -> & Hs & Hname & _).
    assert (Hvalid : validNames (names ++ sub ++ [name]) = true).
    { apply validNames_app. split; [assumption|]. now apply validNames_snoc_intro. }
    split; [apply startsWith_absolute|]. split.
    + unfold liesUnder. rewrite E, resolve_absolute by assumption.
      rewrite !components_absolute by assumption. apply namesPrefix_app.
    + intro Hd. specialize (Hdisk Hd). rewrite Forall_forall in Hdisk.
      destruct (Hdisk _ Hq) as (r & Hr & Hw).
      apply app_inv_head in Hr. subst r.
      unfold lookup. rewrite components_absolute by assumption.
      now rewrite (walk_app names _ root n Hlook).
  - rewrite findImages_one, Hlook, Hdir.
    destruct (isFile n && isImageFile _)%bool eqn:Ef; [|constructor].
    apply andb_true_iff in Ef as [Hfile _].
    constructor; [|constructor].
    split; [apply startsWith_refl|]. split.
    + unfold liesUnder. fold cwd. rewrite E, resolve_absolute by assumption.
      rewrite components_absolute by assumption.
      pose proof (namesPrefix_app names []) as Hp. now rewrite app_nil_r in Hp.
    + intros _. destruct n; try discriminate. exact Hlook.
Qed.

Lemma find_first (f : string -> bool) (l : list string) (x : string) :
  In x l -> f x = true -> exists y, find f l = Some y /\ In y l.
Proof.
  induction l as [|a l IH]; [contradiction|].
  intros Hin Hf. simpl. destruct (f a) eqn:Ea.
  - exists a. split; [reflexivity | now left].
  - destruct Hin as [-> | Hin]; [congruence|].
    destruct (IH Hin Hf) as [y [Hy Hiny]]. exists y. split; [assumption | now right].
Qed.

Lemma findImages_from_input (cwd : string) (root : node) (paths : list string)
  (p : string) :
  In p (fst (findImages cwd root paths)) ->
  exists input, In input paths /\ In p (fst (findImages cwd root [input])).
Proof.
  induction paths as [|input rest IH]; [contradiction|].
  change (input :: rest) with ([input] ++ rest)%list.
  rewrite findImages_app, fst_both. intro Hin. apply in_app_or in Hin as [Hin | Hin].
  - exists input. split; [now left | assumption].
  - destruct (IH Hin) as [i [Hi Hp]]. exists i. split; [now right | assumption].
Qed.

(** X15: every discovered file lies, name by name, under one of the inputs,
    and the owner lookup of the per-file path always finds an input for
    it: the fallback for a file without owner is never taken for a
    discovered file. *)
Theorem discovered_files_have_owner :
  forall (here : list string) (root : node) (paths : list string),
    validNames here = true ->
    wellNamed root = true ->
    let cwd := absolute here in
    Forall (fun p =>
              (exists input, In input paths /\ liesUnder cwd p input = true)
              /\ (exists first,
                     owner cwd p paths = Some first /\ In first paths
                     /\ startsWith p (Path.resolve cwd [first]) = true))
           (fst (findImages cwd root paths)).
Proof.
  intros here root paths Hhere Hroot cwd. apply Forall_forall. intros p Hp.
  destruct (findImages_from_input cwd root paths p Hp) as [input [Hin Hone]].
  pose proof (findImages_one_under here root input Hhere Hroot) as Hall.
  rewrite Forall_forall in Hall. destruct (Hall p Hone) as (Hstart & Hunder & _).
  split; [now exists input|].
  destruct (find_first (fun i => startsWith p (Path.resolve cwd [i])) paths input
              Hin Hstart) as [first [Hfind Hfirst]].
  exists first. repeat split; try assumption.
  now apply find_some in Hfind as [_ Hf].
Qed.

Lemma discovered_files_have_owner_witness :
  Forall (fun p =>
            (exists input, In input ["photos2"; "photos"]
                           /\ liesUnder "/p" p input = true)
            /\ (exists first,
                   owner "/p" p ["photos2"; "photos"] = Some first
                   /\ In first ["photos2"; "photos"]
                   /\ startsWith p (Path.resolve "/p" [first]) = true))
         (fst (findImages "/p" sampleDisk ["photos2"; "photos"])).
Proof.
  apply (discovered_files_have_owner ["p"] sampleDisk ["photos2"; "photos"]);
    reflexivity.
Defined.

(** X16: on a file system whose listings hold no name twice, every path
    discovery returns leads to a regular file. *)
Theorem discovered_files_on_disk :
  forall (here : list string) (root : node) (paths : list string),
    validNames here = true ->
    wellNamed root = true ->
    distinctNames root = true ->
    Forall (fun p => lookup root p = Some File)
           (fst (findImages (absolute here) root paths)).
Proof.
  intros here root paths Hhere Hroot Hdistinct. apply Forall_forall. intros p Hp.
  destruct (findImages_from_input _ root paths p Hp) as [input [Hin Hone]].
  pose proof (findImages_one_under here root input Hhere Hroot) as Hall.
  rewrite Forall_forall in Hall. destruct (Hall p Hone) as (_ & _ & Hdisk).
  now apply Hdisk.
Qed.

Lemma discovered_files_on_disk_witness :
  Forall (fun p => lookup sampleDisk p = Some File)
         (fst (findImages "/p" sampleDisk ["photos"; "solo.png"])).
Proof.
  apply (discovered_files_on_disk ["p"] sampleDisk ["photos"; "solo.png"]);
    reflexivity.
Defined.

End DiscoveredFiles.

(* ================================================================== *)
(** * Ownership by string prefix *)
(* ================================================================== *)

Section StringPrefixOwnership.

(** C10, as stated: a discovered file that lies under no listed input does
    not exist.  [/p/photos2/x.jpg] is not discovered from the input
    [/p/photos], and whatever the inputs and the file system, every
    discovered file lies, name by name, under one of the inputs. *)
Lemma no_discovered_file_outside_the_inputs :
  ~ In "/p/photos2/x.jpg" (fst (findImages "/" sampleDisk ["/p/photos"]))
  /\ ~ (exists (here : list string) (root : node) (allInputs : list string)
               (inputFile : string),
           validNames here = true /\ wellNamed root = true
           /\ In inputFile (fst (findImages (absolute here) root allInputs))
           /\ forallb (fun input => negb (liesUnder (absolute here) inputFile input))
                allInputs = true).
Proof.
  split.
  - simpl. intros [H | [H | [H | []]]]; discriminate.
  - intros (here & root & allInputs & inputFile & Hhere & Hroot & Hin & Hnone).
    destruct (findImages_from_input _ root allInputs inputFile Hin) as [input [Hi Hone]].
    pose proof (findImages_one_under here root input Hhere Hroot) as Hall.
    rewrite Forall_forall in Hall. destruct (Hall inputFile Hone) as (_ & Hunder & _).
    rewrite forallb_forall in Hnone. specialize (Hnone input Hi).
    rewrite Hunder in Hnone. discriminate.
Qed.

(** C10: the owner test is a prefix test on strings, not on path names:
    with the input directories [/p/photos] and [/p/photos2], the
    discovered file [/p/photos2/x.jpg] gets [/p/photos] as its owner,
    because that path is a string prefix of the file's, although the file
    does not lie under [/p/photos]; it is relativized against [/p/photos],
    a directory that does not contain it: the relative directory is
    [../photos2] and the output path leaves the output root. *)
Theorem string_prefix_owner_not_containing :
  exists (cwd : string) (root : node) (allInputs : list string) (inputFile : string),
    In inputFile (fst (findImages cwd root allInputs))
    /\ exists input,
         owner cwd inputFile allInputs = Some input
         /\ startsWith inputFile (Path.resolve cwd [input]) = true
         /\ liesUnder cwd inputFile input = false
         /\ owningBaseDir cwd root inputFile allInputs = Some (Path.resolve cwd [input])
         /\ Path.relative cwd (Path.resolve cwd [input]) (Path.dirname inputFile)
            = "../photos2"
         /\ getOutputFilePath plainHost cwd root inputFile allInputs (tree "/out") Null
            = Ok "/photos2/x.jpg".
Proof.
  exists "/", sampleDisk, ["/p/photos"; "/p/photos2"], "/p/photos2/x.jpg".
  split; [simpl; auto 10|].
  exists "/p/photos". repeat split; reflexivity.
Qed.

(** The same on a batch the tool can run: in [/p] with the inputs
    [photos] and [photos2] and no explicit output, the file discovered
    under the second input is owned by the first, and the path computed
    for its output is the path of the file itself. *)
Lemma sibling_directories_share_a_prefix :
  let inputs := ["photos"; "photos2"] in
  let file := "/p/photos2/x.jpg" in
  resolveOutputPath "/p" sampleDisk inputs Null = Ok (tree "/p/imgwork-output")
  /\ In file (fst (findImages "/p" sampleDisk inputs))
  /\ liesUnder "/p" file "photos2" = true
  /\ owner "/p" file inputs = Some "photos"
  /\ getOutputFilePath plainHost "/p" sampleDisk file inputs
       (tree "/p/imgwork-output") Null
     = Ok file.
Proof. vm_compute. repeat split; auto 10. Qed.

End StringPrefixOwnership.

(* ================================================================== *)
(** * Where the outputs go *)
(* ================================================================== *)

Section OutputPlaces.

Variable host : Host.
Variable root : node.

Lemma owner_head (cwd inputFile first : string) (rest : list string) :
  startsWith inputFile (Path.resolve cwd [first]) = true ->
  owner cwd inputFile (first :: rest) = Some first.
Proof. intro H. unfold owner. simpl. now rewrite H. Qed.

(** X17: run on one directory with no explicit output, the tool mirrors the
    directory: every image discovered at [sub/name] under the input
    directory [dir/d] gets the output path [dir/d-imgwork/sub/name] when
    the extension is kept. *)
Theorem single_directory_is_mirrored :
  forall (here dir : list string) (d input p : string) (n : node),
    let cwd := absolute here in
    validNames here = true -> wellNamed root = true ->
    validNames dir = true -> validName d = true ->
    Path.resolve cwd [input] = absolute (dir ++ [d]) ->
    lookup root (absolute (dir ++ [d])) = Some n ->
    isDirectory n = true ->
    In p (fst (findImages cwd root [input])) ->
    exists outputInfo sub name,
      resolveOutputPath cwd root [input] Null = Ok outputInfo
      /\ p = absolute (dir ++ [d] ++ sub ++ [name])
      /\ getOutputFilePath host cwd root p [input] outputInfo Null
         = Ok (absolute (dir ++ [d ++ "-imgwork"] ++ sub ++ [name])).
Proof.
  intros here dir d input p n cwd Hhere Hroot Hdir Hd Hres Hlook Hisdir Hp.
  subst cwd.
  assert (Hstat : statIsDirectory root (absolute (dir ++ [d])) = true).
  { unfold statIsDirectory. now rewrite Hlook. }
  assert (Hnames : validNames (dir ++ [d]) = true) by now apply validNames_snoc_intro.
  rewrite <- Hres in Hlook.
  rewrite (findImages_directory here root input n Hhere Hroot Hlook Hisdir) in Hp.
  rewrite Hres, components_absolute in Hp by assumption.
  apply in_map_iff in Hp as [q [<- Hq]].
  rewrite Hres in Hlook. unfold lookup in Hlook.
  rewrite components_absolute in Hlook by assumption.
  pose proof (imagePaths_shape n (dir ++ [d])%list
                (walk_wellNamed _ root n Hroot Hlook)) as Hshape.
  rewrite Forall_forall in Hshape.
  destruct (Hshape q Hq) as (sub & name & -> & Hsub & Hname & _).
  exists {| outputBase := absolute (dir ++ [d]) ++ "-imgwork";
            isDirectoryTarget := true; isSingleFile := false |}, sub, name.
  split; [|split].
  - unfold resolveOutputPath. simpl truthy. cbv iota. now rewrite Hres, Hstat.
  - now rewrite <- !app_assoc.
  - assert (Htag : validName (d ++ "-imgwork") = true).
    { rewrite <- (append_empty_r (d ++ "-imgwork")), append_assoc.
      apply validName_tagged; [now apply validName_plain | reflexivity]. }
    pose proof (getOutputFilePath_mirrors host (absolute here) root [input]
                  {| outputBase := absolute (dir ++ [d]) ++ "-imgwork";
                     isDirectoryTarget := true; isSingleFile := false |}
                  input Null (dir ++ [d])%list sub (dir ++ [(d ++ "-imgwork")%string])%list name
                  eq_refl (absolute_snoc_tagged dir d "-imgwork") Hnames Hsub Hname
                  (validNames_snoc_intro dir _ Hdir Htag)) as Hmirror.
    cbv zeta in Hmirror.
    assert (Hfinal :
      Path.basename (absolute ((dir ++ [d]) ++ sub ++ [name]))
        (Some (Path.extname (absolute ((dir ++ [d]) ++ sub ++ [name]))))
      ++ outputExtension Null (absolute ((dir ++ [d]) ++ sub ++ [name])) = name).
    { unfold outputExtension. simpl truthy. cbv iota. rewrite app_assoc.
      rewrite extname_absolute; [|now apply validNames_app | assumption].
      apply basename_extname; [now apply validNames_app | assumption]. }
    rewrite Hfinal in Hmirror.
    rewrite (app_assoc dir [(d ++ "-imgwork")%string]).
    apply Hmirror; try assumption.
    apply owner_head. rewrite Hres. apply startsWith_absolute.
Qed.

End OutputPlaces.

Lemma single_directory_is_mirrored_witness :
  exists outputInfo sub name,
    resolveOutputPath "/p" sampleDisk ["photos/"] Null = Ok outputInfo
    /\ "/p/photos/sub/deep/z.webp" = absolute (["p"] ++ ["photos"] ++ sub ++ [name])
    /\ getOutputFilePath plainHost "/p" sampleDisk "/p/photos/sub/deep/z.webp"
         ["photos/"] outputInfo Null
       = Ok (absolute (["p"] ++ ["photos" ++ "-imgwork"] ++ sub ++ [name])).
Proof.
  apply (single_directory_is_mirrored plainHost sampleDisk ["p"] ["p"] "photos"
           "photos/" "/p/photos/sub/deep/z.webp"
           (Dir [("x.jpg", File); ("notes.txt", File);
                 ("sub", Dir [("y.PNG", File); ("deep", Dir [("z.webp", File)])])]));
    try reflexivity.
  simpl. auto.
Defined.

Section OutputCollisions.

Variable host : Host.
Variable root : node.

Lemma append_inv_tail (a b c : string) : a ++ c = b ++ c -> a = b.
Proof.
  revert b. induction a as [|x a IH]; intros b H.
  - destruct b as [|y b]; [reflexivity|].
    apply (f_equal String.length) in H. simpl in H.
    rewrite length_append in H. lia.
  - destruct b as [|y b].
    + apply (f_equal String.length) in H. simpl in H.
      rewrite length_append in H. lia.
    + simpl in H. injection H as -> H. now rewrite (IH b H).
Qed.

Lemma lastDotSplit_none (s : string) : hasDot s = false -> Path.lastDotSplit s = None.
Proof.
  induction s as [|c s IH]; [reflexivity|]. simpl. intro H.
  apply orb_false_iff in H as [Hc Hs]. now rewrite (IH Hs), Hc.
Qed.

Lemma lastDotSplit_parts (stem ext : string) :
  hasDot ext = false ->
  Path.lastDotSplit (stem ++ String "." ext) = Some (stem, String "." ext).
Proof.
  intro H. induction stem as [|c stem IH]; simpl.
  - now rewrite (lastDotSplit_none ext H).
  - now rewrite IH.
Qed.

(** The extension and the stem of a name written [stem.ext]. *)
Lemma extname_parts (dir : list string) (stem ext : string) :
  validNames dir = true -> validName (stem ++ String "." ext) = true ->
  stem <> "" -> hasDot ext = false ->
  let file := absolute (dir ++ [stem ++ String "." ext]) in
  Path.extname file = String "." ext
  /\ Path.basename file (Some (Path.extname file)) = stem.
Proof.
  intros Hd Hn Hstem Hdot file. subst file.
  assert (Hext : Path.extname (stem ++ String "." ext) = String "." ext).
  { unfold Path.extname. rewrite lastComponent_plain by assumption.
    rewrite lastDotSplit_parts by assumption.
    rewrite (eqb_false_of_neq stem "" Hstem).
    unfold validName in Hn. repeat (apply andb_true_iff in Hn as [Hn ?]).
    match goal with H : negb (String.eqb _ "..") = true |- _ =>
      apply negb_true_iff in H; now rewrite H end. }
  rewrite extname_absolute by assumption. split; [exact Hext|].
  pose proof (basename_extname dir _ Hd Hn) as Hsplit.
  rewrite Hext in Hsplit |- *. now apply append_inv_tail in Hsplit.
Qed.

(** X18: when the extension is replaced, the output name keeps the stem
    only: two files [stem.ext1] and [stem.ext2] of one directory under
    one input directory get the same output path [OUT/sub/stem] with the
    new extension. *)
Theorem same_stem_same_output :
  forall (cwd input : string) (outputInfo : OutputInfo)
         (rootNames sub outNames : list string) (stem ext1 ext2 newExt : string),
    isSingleFile outputInfo = false ->
    outputBase outputInfo = absolute outNames ->
    validNames rootNames = true -> validNames sub = true -> validNames outNames = true ->
    validName (stem ++ String "." ext1) = true ->
    validName (stem ++ String "." ext2) = true ->
    stem <> "" -> hasDot ext1 = false -> hasDot ext2 = false ->
    newExt <> "" -> validName (stem ++ newExt) = true ->
    Path.resolve cwd [input] = absolute rootNames ->
    statIsDirectory root (absolute rootNames) = true ->
    let file1 := absolute (rootNames ++ sub ++ [stem ++ String "." ext1]) in
    let file2 := absolute (rootNames ++ sub ++ [stem ++ String "." ext2]) in
    getOutputFilePath host cwd root file1 [input] outputInfo (Str newExt)
    = Ok (absolute (outNames ++ sub ++ [stem ++ newExt]))
    /\ getOutputFilePath host cwd root file2 [input] outputInfo (Str newExt)
       = Ok (absolute (outNames ++ sub ++ [stem ++ newExt])).
Proof.
  intros cwd input outputInfo rootNames sub outNames stem ext1 ext2 newExt
         Hsingle Hbase Hr Hs Ho Hn1 Hn2 Hstem Hd1 Hd2 Hnew Hvalid Hres Hdir file1 file2.
  assert (Hrs : validNames (rootNames ++ sub) = true) by now apply validNames_app.
  assert (Hone : forall ext,
    validName (stem ++ String "." ext) = true -> hasDot ext = false ->
    getOutputFilePath host cwd root
      (absolute (rootNames ++ sub ++ [stem ++ String "." ext])) [input] outputInfo
      (Str newExt)
    = Ok (absolute (outNames ++ sub ++ [stem ++ newExt]))).
  { intros ext Hn Hdot.
    pose proof (getOutputFilePath_mirrors host cwd root [input] outputInfo input
                  (Str newExt) rootNames sub outNames (stem ++ String "." ext)
                  Hsingle Hbase Hr Hs Hn Ho) as Hm.
    cbv zeta in Hm.
    assert (Hfinal :
      Path.basename (absolute (rootNames ++ sub ++ [stem ++ String "." ext]))
        (Some (Path.extname (absolute (rootNames ++ sub ++ [stem ++ String "." ext]))))
      ++ outputExtension (Str newExt)
           (absolute (rootNames ++ sub ++ [stem ++ String "." ext]))
      = stem ++ newExt).
    { rewrite app_assoc.
      destruct (extname_parts (rootNames ++ sub) stem ext Hrs Hn Hstem Hdot) as [_ Hb].
      rewrite Hb. unfold outputExtension. now rewrite (truthy_Str newExt Hnew). }
    rewrite Hfinal in Hm. apply Hm; try assumption.
    apply owner_head. rewrite Hres. apply startsWith_absolute. }
  split; [now apply Hone | now apply Hone].
Qed.

(** X19: a file given as an input itself goes straight into the output
    root under its own name, whatever directory it comes from. *)
Theorem loose_file_goes_to_output_root :
  forall (cwd input : string) (rest : list string) (outputInfo : OutputInfo)
         (dir outNames : list string) (name : string) (newExtension : value),
    isSingleFile outputInfo = false ->
    outputBase outputInfo = absolute outNames ->
    validNames dir = true -> validName name = true -> validNames outNames = true ->
    truthy newExtension = false ->
    Path.resolve cwd [input] = absolute (dir ++ [name]) ->
    statIsDirectory root (absolute (dir ++ [name])) = false ->
    getOutputFilePath host cwd root (absolute (dir ++ [name])) (input :: rest)
      outputInfo newExtension
    = Ok (absolute (outNames ++ [name])).
Proof.
  intros cwd input rest outputInfo dir outNames name newExtension
         Hsingle Hbase Hd Hn Ho Hnew Hres Hstat.
  rewrite getOutputFilePath_tree by assumption.
  unfold relativizationBase.
  rewrite (owner_head cwd _ input rest) by (rewrite Hres; apply startsWith_refl).
  rewrite Hres, Hstat, Hbase, dirname_absolute by assumption.
  pose proof (relative_under cwd dir [] Hd eq_refl) as Hrel.
  rewrite app_nil_r in Hrel. rewrite Hrel.
  pose proof (join_under outNames [] Ho eq_refl) as Hjoin.
  rewrite app_nil_r in Hjoin. rewrite Hjoin.
  unfold outputExtension. rewrite Hnew, extname_absolute by assumption.
  rewrite basename_extname by assumption.
  now rewrite join_name.
Qed.

End OutputCollisions.

Lemma same_stem_same_output_witness :
  getOutputFilePath plainHost "/p" sampleDisk "/p/photos/sub/y.PNG" ["photos"]
    (tree "/p/photos-imgwork") (Str ".webp")
  = Ok (absolute (["p"; "photos-imgwork"] ++ ["sub"] ++ ["y" ++ ".webp"]))
  /\ getOutputFilePath plainHost "/p" sampleDisk "/p/photos/sub/y.jpeg" ["photos"]
       (tree "/p/photos-imgwork") (Str ".webp")
     = Ok (absolute (["p"; "photos-imgwork"] ++ ["sub"] ++ ["y" ++ ".webp"])).
Proof.
  apply (same_stem_same_output plainHost sampleDisk "/p" "photos"
           (tree "/p/photos-imgwork") ["p"; "photos"] ["sub"] ["p"; "photos-imgwork"]
           "y" "PNG" "jpeg" ".webp");
    try reflexivity; discriminate.
Defined.

Lemma loose_file_goes_to_output_root_witness :
  getOutputFilePath plainHost "/p" sampleDisk (absolute (["p"] ++ ["solo.png"]))
    ["solo.png"; "photos"] (tree "/p/imgwork-output") Null
  = Ok (absolute (["p"; "imgwork-output"] ++ ["solo.png"])).
Proof.
  apply (loose_file_goes_to_output_root plainHost sampleDisk "/p" "solo.png" ["photos"]
           (tree "/p/imgwork-output") ["p"] ["p"; "imgwork-output"] "solo.png" Null);
    reflexivity.
Defined.

Section SiblingInputs.

Variable host : Host.
Variable root : node.

Lemma stripCommon_shared (shared a b : list string) :
  Path.stripCommon (shared ++ a) (shared ++ b) = Path.stripCommon a b.
Proof.
  induction shared as [|x shared IH]; [reflexivity|].
  simpl. now rewrite String.eqb_refl.
Qed.

(** From a directory to one beside it: up once, then down. *)
Lemma relative_beside (cwd : string) (dir sub : list string) (a b : string) :
  validNames dir = true -> validName a = true -> validName b = true ->
  validNames sub = true -> a <> b ->
  Path.relative cwd (absolute (dir ++ [a])) (absolute (dir ++ b :: sub))
  = Path.joinSlash (".." :: b :: sub).
Proof.
  intros Hd Ha Hb Hs Hab.
  assert (Hfrom : validNames (dir ++ [a]) = true) by now apply validNames_snoc_intro.
  assert (Hto : validNames (dir ++ b :: sub) = true).
  { apply validNames_app. split; [assumption|]. apply validNames_cons. now split. }
  assert (Hne : String.eqb (absolute (dir ++ [a])) (absolute (dir ++ b :: sub)) = false).
  { apply eqb_false_of_neq. intro E. apply absolute_inj in E; try assumption.
    apply app_inv_head in E. injection E as E _. contradiction. }
  unfold Path.relative. rewrite Hne, !resolve_absolute, Hne by assumption.
  rewrite !components_absolute, stripCommon_shared by assumption.
  simpl. now rewrite (eqb_false_of_neq a b Hab).
Qed.

(** Joining [../b/sub] onto [outDir/o] leaves [o]. *)
Lemma join_up (outDir sub : list string) (o b : string) :
  validNames outDir = true -> validName o = true -> validName b = true ->
  validNames sub = true ->
  Path.join [absolute (outDir ++ [o]); Path.joinSlash (".." :: b :: sub)]
  = absolute (outDir ++ b :: sub).
Proof.
  intros Ho Hname Hb Hs.
  assert (Hout : validNames (outDir ++ [o]) = true) by now apply validNames_snoc_intro.
  assert (Hbs : validNames (b :: sub) = true) by (apply validNames_cons; now split).
  assert (Hres : validNames (outDir ++ b :: sub) = true) by now apply validNames_app.
  set (path := absolute (outDir ++ [o])
               ++ String "/" (".." ++ String "/" (Path.joinSlash (b :: sub)))).
  assert (Ejoin : Path.join [absolute (outDir ++ [o]); Path.joinSlash (".." :: b :: sub)]
                  = Path.normalize path) by reflexivity.
  rewrite Ejoin. clear Ejoin.
  assert (Hnorm : Path.normalizeString path false = Path.joinSlash (outDir ++ b :: sub)).
  { unfold Path.normalizeString, Path.normalizeComponents. subst path.
    assert (Hsegs : Path.segments (absolute (outDir ++ [o])) = "" :: (outDir ++ [o])%list).
    { rewrite segments_absolute by assumption.
      destruct (outDir ++ [o])%list eqn:E; [now destruct outDir | reflexivity]. }
    rewrite !segments_slash, Hsegs.
    rewrite (segments_joinSlash (b :: sub)) by (congruence || assumption).
    rewrite !fold_left_app.
    rewrite (fold_normStep_plain false ("" :: outDir ++ [o]) []).
    2: { change (forallb plainSegment ("" :: outDir ++ [o]))
           with (forallb plainSegment (outDir ++ [o])).
         now apply plainSegment_valid. }
    rewrite filter_nonEmpty_drop, filter_nonEmpty_valid, app_nil_r by assumption.
    rewrite rev_app_distr. simpl rev at 1. simpl app at 1.
    change (fold_left (Path.normStep false) (Path.segments "..") (o :: rev outDir))
      with (Path.normStep false (o :: rev outDir) "..").
    assert (Hstep : Path.normStep false (o :: rev outDir) ".." = rev outDir).
    { unfold Path.normStep. simpl.
      unfold validName in Hname. repeat (apply andb_true_iff in Hname as [Hname ?]).
      match goal with H : negb (String.eqb o "..") = true |- _ =>
        apply negb_true_iff in H; now rewrite H end. }
    rewrite Hstep.
    rewrite fold_normStep_plain by now apply plainSegment_valid.
    rewrite filter_nonEmpty_valid by assumption.
    rewrite (validName_normStep false _ b Hb).
    rewrite rev_app_distr, rev_involutive. simpl rev.
    now rewrite rev_involutive, <- app_assoc. }
  unfold Path.normalize.
  assert (Hp : String.eqb path "" = false) by reflexivity.
  assert (Habs : Path.isAbsolute path = true) by reflexivity.
  rewrite Hp, Habs. simpl negb. rewrite Hnorm.
  assert (Hjoin : String.eqb (Path.joinSlash (outDir ++ b :: sub)) "" = false).
  { apply eqb_false_of_neq. apply joinSlash_valid_not_empty; [|assumption].
    now destruct outDir. }
  rewrite Hjoin.
  assert (Hend : Path.endsWithSlash path = false).
  { subst path.
    change (String "/" (".." ++ String "/" (Path.joinSlash (b :: sub))))
      with (String "/" (".." ++ String "/" "") ++ Path.joinSlash (b :: sub)).
    rewrite <- append_assoc, endsWithSlash_append.
    - now apply endsWithSlash_joinSlash.
    - apply joinSlash_valid_not_empty; [congruence | assumption]. }
  now rewrite Hend.
Qed.

Lemma startsWith_longer_name (dir more : list string) (a s : string) :
  startsWith (absolute (dir ++ (a ++ s) :: more)) (absolute (dir ++ [a])) = true.
Proof.
  unfold startsWith.
  rewrite (absolute_app dir [a]), (absolute_app dir ((a ++ s) :: more)) by discriminate.
  change (Path.joinSlash [a]) with a.
  assert (E : Path.joinSlash ((a ++ s) :: more)
              = a ++ (s ++ match more with
                           | [] => ""
                           | _ => String "/" (Path.joinSlash more)
                           end)).
  { destruct more as [|m more].
    - simpl. now rewrite append_empty_r.
    - rewrite joinSlash_cons. now rewrite append_assoc. }
  rewrite E. clear E.
  set (front := match dir with [] => "" | _ :: _ => absolute dir end).
  set (tail := s ++ match more with
                    | [] => ""
                    | _ => String "/" (Path.joinSlash more)
                    end).
  assert (Eq : front ++ String "/" (a ++ tail) = (front ++ String "/" a) ++ tail).
  { change (String "/" (a ++ tail)) with (String "/" a ++ tail).
    now rewrite append_assoc. }
  rewrite Eq. apply prefix_append.
Qed.

(** X20: an input directory whose name is the beginning of another
    directory's name, and that comes first, takes the files of that other
    directory: a file [sub/name] under [dir/as], with [dir/a] the first
    input, is placed relative to [dir/a] and lands beside the output root
    [outDir/o], at [outDir/as/sub/name], not inside it; when the output
    root is itself beside the inputs, the output path computed is the path
    of the input file. *)
Theorem longer_named_sibling_leaves_output_root :
  forall (cwd first : string) (rest : list string) (outputInfo : OutputInfo)
         (dir sub outDir : list string) (a s o name : string)
         (newExtension : value),
    isSingleFile outputInfo = false ->
    outputBase outputInfo = absolute (outDir ++ [o]) ->
    validNames dir = true -> validNames sub = true -> validNames outDir = true ->
    validName a = true -> validName (a ++ s) = true -> s <> "" ->
    validName o = true -> validName name = true ->
    truthy newExtension = false ->
    Path.resolve cwd [first] = absolute (dir ++ [a]) ->
    statIsDirectory root (absolute (dir ++ [a])) = true ->
    let file := absolute (dir ++ (a ++ s) :: sub ++ [name]) in
    owner cwd file (first :: rest) = Some first
    /\ getOutputFilePath host cwd root file (first :: rest) outputInfo newExtension
       = Ok (absolute (outDir ++ (a ++ s) :: sub ++ [name]))
    /\ (outDir = dir ->
        getOutputFilePath host cwd root file (first :: rest) outputInfo newExtension
        = Ok file).
Proof.
  intros cwd first rest outputInfo dir sub outDir a s o name newExtension
         Hsingle Hbase Hd Hs Ho Ha Has Hne Hname Hn Hnew Hres Hstat file.
  assert (Hown : owner cwd file (first :: rest) = Some first).
  { apply owner_head. rewrite Hres. subst file. apply startsWith_longer_name. }
  assert (Hdiff : a <> a ++ s).
  { intro E. apply (f_equal String.length) in E. rewrite length_append in E.
    destruct s; [congruence | simpl in E; lia]. }
  assert (Hdirs : validNames (dir ++ (a ++ s) :: sub) = true).
  { apply validNames_app. split; [assumption|]. apply validNames_cons. now split. }
  assert (Hresult :
    getOutputFilePath host cwd root file (first :: rest) outputInfo newExtension
    = Ok (absolute (outDir ++ (a ++ s) :: sub ++ [name]))).
  { rewrite getOutputFilePath_tree by assumption.
    unfold relativizationBase. rewrite Hown, Hres, Hstat, Hbase.
    subst file.
    change (dir ++ (a ++ s)%string :: sub ++ [name])%list
      with (dir ++ ((a ++ s)%string :: sub) ++ [name])%list.
    rewrite app_assoc, dirname_absolute by assumption.
    rewrite relative_beside, join_up by assumption.
    unfold outputExtension. rewrite Hnew, extname_absolute by assumption.
    rewrite basename_extname by assumption.
    rewrite join_name.
    - now rewrite <- app_assoc.
    - apply validNames_app. split; [assumption|]. apply validNames_cons. now split.
    - assumption. }
  split; [exact Hown|]. split; [exact Hresult|].
  intros ->. exact Hresult.
Qed.

End SiblingInputs.

Lemma longer_named_sibling_leaves_output_root_witness :
  let file := absolute (["p"] ++ ("photos" ++ "2") :: [] ++ ["x.jpg"]) in
  owner "/p" file ["photos"; "photos2"] = Some "photos"
  /\ getOutputFilePath plainHost "/p" sampleDisk file ["photos"; "photos2"]
       (tree "/p/imgwork-output") Null
     = Ok (absolute (["p"] ++ ("photos" ++ "2") :: [] ++ ["x.jpg"]))
  /\ (["p"] = ["p"] ->
      getOutputFilePath plainHost "/p" sampleDisk file ["photos"; "photos2"]
        (tree "/p/imgwork-output") Null
      = Ok file).
Proof.
  apply (longer_named_sibling_leaves_output_root plainHost sampleDisk "/p" "photos"
           ["photos2"] (tree "/p/imgwork-output") ["p"] [] ["p"] "photos" "2"
           "imgwork-output" "x.jpg" Null);
    try reflexivity; discriminate.
Defined.
